(** * Speculation-safe masking primitives of [include/linux/nospec.h]

    A shallow embedding of the branch-free mask generators, the index
    sanitizer, the default speculation fence and the magic-guarded pointer
    sanitizer, together with the bit-level facts that determine what they
    return at the architectural level.

    C values of type [unsigned long] are integers of [Z] in the range
    [0 .. 2^BITS_PER_LONG - 1]; every place where C wraps around or
    reinterprets a word as [long] is written out. *)

From Stdlib Require Import ZArith Lia Bool.

Local Open Scope Z_scope.

(** ** Control flow: the [do { } while (cond)] statement

    Statements are state transformers that may fail to produce a result
    within the steps they are given. *)

Module Stmt.

Definition stmt (S : Type) := S -> option S.

(** The empty compound statement [{ }]. *)
Definition skip {S : Type} : stmt S := fun s => Some s.

(** [do body while (cond)]: the body runs, then the condition is read; the
    loop is entered again when the condition is non-zero. *)
Fixpoint do_while {S : Type} (fuel : nat) (body : stmt S) (cond : S -> Z)
  : stmt S :=
  fun s =>
    match fuel with
    | O => None
    | S fuel' =>
        match body s with
        | None => None
        | Some s' =>
            if cond s' =? 0 then Some s' else do_while fuel' body cond s'
        end
    end.

End Stmt.

(** [#define barrier_nospec() do { } while (0)] (the default form, used when
    the architecture does not supply its own). *)
Definition barrier_nospec {S : Type} (fuel : nat) : Stmt.stmt S :=
  Stmt.do_while fuel Stmt.skip (fun _ => 0).

(** Modelled from the spec: [OPTIMIZER_HIDE_VAR] comes from
    [linux/compiler.h]; it hides the origin of a variable from the code
    generator and has "no functional side effect on the value itself". *)
Definition OPTIMIZER_HIDE_VAR (var : Z) : Z := var.

(** ** Guarded structures

    Any structure type that exposes a [spec_magic] member; the heap maps an
    address to the structure stored there, if any. *)
Class SpecMagic (T : Type) := spec_magic : T -> Z.

Definition heap (T : Type) := Z -> option T.

(** The null pointer. *)
Definition NULL : Z := 0.

(** A structure with a guard member and one payload member. *)
Record guarded_obj : Type := { obj_spec_magic : Z; obj_val : Z }.

#[export] Instance guarded_obj_magic : SpecMagic guarded_obj := obj_spec_magic.

(** A heap with a single structure [o] stored at address [addr]. *)
Definition heap_at (addr : Z) (o : guarded_obj) : heap guarded_obj :=
  fun p => if p =? addr then Some o else None.

Section Nospec.

(** The width of [long], a constant of [asm/bitsperlong.h]. *)
Variable BITS_PER_LONG : Z.
Hypothesis BITS_PER_LONG_pos : 0 < BITS_PER_LONG.

(** The largest [unsigned long]: the all-ones word [~0UL]. *)
Definition ULONG_MAX : Z := 2 ^ BITS_PER_LONG - 1.

(** The word with only the most-significant (sign) bit set. *)
Definition SIGN_BIT : Z := 2 ^ (BITS_PER_LONG - 1).

(** The values an [unsigned long] can hold. *)
Definition is_ulong (x : Z) : Prop := 0 <= x < 2 ^ BITS_PER_LONG.

(** Conversion to [unsigned long]: reduction modulo [2^BITS_PER_LONG]. *)
Definition to_ulong (x : Z) : Z := x mod 2 ^ BITS_PER_LONG.

(** The cast [(long)]: the same bit pattern read in two's complement. *)
Definition to_long (x : Z) : Z :=
  let u := to_ulong x in
  if u <? 2 ^ (BITS_PER_LONG - 1) then u else u - 2 ^ BITS_PER_LONG.

(** [return ~(long)(index | (size - 1UL - index)) >> (BITS_PER_LONG - 1);]
    Both subtractions are unsigned and wrap; [~] binds tighter than [>>];
    [>>] on a [long] is an arithmetic shift; the result is converted to the
    return type [unsigned long]. *)
Definition array_index_mask_nospec (index size : Z) : Z :=
  let index := OPTIMIZER_HIDE_VAR index in
  to_ulong
    (Z.shiftr
       (Z.lnot (to_long (Z.lor index (to_ulong (to_ulong (size - 1) - index)))))
       (BITS_PER_LONG - 1)).

(** The macro [array_index_nospec(index, size)] at type [unsigned long]:
    [_mask = array_index_mask_nospec(_i, _s); (typeof(_i)) (_i & _mask)]. *)
Definition array_index_nospec (index size : Z) : Z :=
  let _i := index in
  let _s := size in
  let _mask := array_index_mask_nospec _i _s in
  to_ulong (Z.land _i _mask).

(** The same macro when [index] has the signed type [long]: [_i] is
    converted to [unsigned long] for the call and for [&], and the masked
    word is cast back with [(typeof(_i))], here [(long)]. *)
Definition array_index_nospec_long (index size : Z) : Z :=
  let _i := index in
  let _s := size in
  let _mask := array_index_mask_nospec (to_ulong _i) _s in
  to_long (Z.land (to_ulong _i) _mask).

(** [return ((long)((x ^ y) ^ ((x ^ y) - 1))) >> (BITS_PER_LONG - 1);] *)
Definition neq_mask_nospec (x y : Z) : Z :=
  let x := OPTIMIZER_HIDE_VAR x in
  let y := OPTIMIZER_HIDE_VAR y in
  to_ulong
    (Z.shiftr
       (to_long (Z.lxor (Z.lxor x y) (to_ulong (Z.lxor x y - 1))))
       (BITS_PER_LONG - 1)).

(** The macro [magic_neq_nospec(p, magic)]: the guard is loaded through [p]
    (there is no result when [p] addresses no structure), both operands are
    converted to [unsigned long] for the call, and the numeric form of [p]
    is masked. *)
Definition magic_neq_nospec {T : Type} `{SpecMagic T}
  (h : heap T) (p magic : Z) : option Z :=
  let _p := p in
  match h _p with
  | None => None
  | Some obj =>
      let _p_spec_magic := spec_magic obj in
      let _magic := magic in
      let _mask :=
        neq_mask_nospec (to_ulong _p_spec_magic) (to_ulong _magic) in
      Some (Z.land (to_ulong _p) _mask)
  end.

(** ** Facts about words *)

Lemma pow2_pos : 0 < 2 ^ BITS_PER_LONG.
Proof. apply Z.pow_pos_nonneg; lia. Qed.

Lemma pow2_half : 2 ^ BITS_PER_LONG = 2 * 2 ^ (BITS_PER_LONG - 1).
Proof.
  replace BITS_PER_LONG with (Z.succ (BITS_PER_LONG - 1)) at 1 by lia.
  apply Z.pow_succ_r; lia.
Qed.

Lemma half_pos : 0 < 2 ^ (BITS_PER_LONG - 1).
Proof. apply Z.pow_pos_nonneg; lia. Qed.

Lemma to_ulong_range x : is_ulong (to_ulong x).
Proof. unfold is_ulong, to_ulong. apply Z.mod_pos_bound, pow2_pos. Qed.

Lemma to_ulong_small x : is_ulong x -> to_ulong x = x.
Proof. unfold is_ulong, to_ulong. intros Hx. now apply Z.mod_small. Qed.

Lemma to_ulong_m1 : to_ulong (-1) = ULONG_MAX.
Proof.
  unfold to_ulong, ULONG_MAX. pose proof pow2_pos.
  symmetry. apply (Z.mod_unique_pos _ _ (-1)); lia.
Qed.

Lemma ULONG_MAX_is_ulong : is_ulong ULONG_MAX.
Proof. unfold is_ulong, ULONG_MAX. pose proof pow2_pos. lia. Qed.

Lemma ULONG_MAX_ones : ULONG_MAX = Z.ones BITS_PER_LONG.
Proof. unfold ULONG_MAX. now rewrite Z.ones_equiv, Z.sub_1_r. Qed.

Lemma land_ULONG_MAX x : is_ulong x -> Z.land x ULONG_MAX = x.
Proof.
  intros Hx. rewrite ULONG_MAX_ones, Z.land_ones by lia.
  now apply Z.mod_small.
Qed.

(** ** Replicating the sign bit

    An arithmetic right shift of a [long] by [BITS_PER_LONG - 1] yields [-1]
    or [0]; read back as [unsigned long] that is the all-ones or the
    all-zeros word. *)

Lemma shiftr_neg_half a :
  - 2 ^ (BITS_PER_LONG - 1) <= a < 0 -> Z.shiftr a (BITS_PER_LONG - 1) = -1.
Proof.
  intros Ha. rewrite Z.shiftr_div_pow2 by lia.
  symmetry. apply (Z.div_unique a _ (-1) (a + 2 ^ (BITS_PER_LONG - 1))); lia.
Qed.

Lemma shiftr_nonneg_half a :
  0 <= a < 2 ^ (BITS_PER_LONG - 1) -> Z.shiftr a (BITS_PER_LONG - 1) = 0.
Proof.
  intros Ha. rewrite Z.shiftr_div_pow2 by lia. now apply Z.div_small.
Qed.

Lemma sign_fill v :
  to_ulong (Z.shiftr (to_long v) (BITS_PER_LONG - 1)) =
  if to_ulong v <? SIGN_BIT then 0 else ULONG_MAX.
Proof.
  unfold to_long, SIGN_BIT.
  pose proof (to_ulong_range v) as Hv. unfold is_ulong in Hv.
  pose proof pow2_half as Hh.
  destruct (Z.ltb_spec (to_ulong v) (2 ^ (BITS_PER_LONG - 1))) as [Hlt | Hge].
  - rewrite shiftr_nonneg_half by lia. apply Z.mod_0_l. pose proof pow2_pos; lia.
  - rewrite shiftr_neg_half by lia. apply to_ulong_m1.
Qed.

Lemma sign_fill_not v :
  to_ulong (Z.shiftr (Z.lnot (to_long v)) (BITS_PER_LONG - 1)) =
  if to_ulong v <? SIGN_BIT then ULONG_MAX else 0.
Proof.
  unfold to_long, SIGN_BIT, Z.lnot.
  pose proof (to_ulong_range v) as Hv. unfold is_ulong in Hv.
  pose proof pow2_half as Hh.
  destruct (Z.ltb_spec (to_ulong v) (2 ^ (BITS_PER_LONG - 1))) as [Hlt | Hge].
  - rewrite shiftr_neg_half by lia. apply to_ulong_m1.
  - rewrite shiftr_nonneg_half by lia. apply Z.mod_0_l. pose proof pow2_pos; lia.
Qed.

(** ** Bit-level facts behind the two identities *)

Lemma lor_lt_pow2 a b k :
  0 <= a -> 0 <= b -> 0 <= k ->
  (Z.lor a b < 2 ^ k <-> a < 2 ^ k /\ b < 2 ^ k).
Proof.
  intros Ha Hb Hk.
  assert (Hz : forall c, 0 <= c -> (c < 2 ^ k <-> c = 0 \/ Z.log2 c < k)).
  { intros c Hc. destruct (Z.eq_dec c 0) as [-> | Hne].
    - split; [now left | intros _; apply Z.pow_pos_nonneg; lia].
    - rewrite (Z.log2_lt_pow2 c k) by lia. intuition lia. }
  assert (Hlor : 0 <= Z.lor a b) by now apply Z.lor_nonneg.
  rewrite (Hz _ Hlor), (Hz _ Ha), (Hz _ Hb).
  rewrite Z.lor_eq_0_iff, Z.log2_lor by assumption.
  split.
  - intros [[-> ->] | Hm]; [now split; left | split; right; lia].
  - intros [[-> | Hla] [-> | Hlb]].
    + now left.
    + right. change (Z.log2 0) with 0. pose proof (Z.log2_nonneg b). lia.
    + right. change (Z.log2 0) with 0. pose proof (Z.log2_nonneg a). lia.
    + right. lia.
Qed.

Lemma testbit_top a :
  is_ulong a ->
  Z.testbit a (BITS_PER_LONG - 1) = (SIGN_BIT <=? a).
Proof.
  unfold is_ulong, SIGN_BIT. intros Ha. pose proof pow2_half as Hh.
  pose proof half_pos as Hp.
  rewrite Z.testbit_odd, Z.shiftr_div_pow2 by lia.
  destruct (Z.leb_spec (2 ^ (BITS_PER_LONG - 1)) a) as [Hge | Hlt].
  - replace (a / 2 ^ (BITS_PER_LONG - 1)) with 1; [reflexivity |].
    apply (Z.div_unique a _ 1 (a - 2 ^ (BITS_PER_LONG - 1))); lia.
  - rewrite Z.div_small by lia. reflexivity.
Qed.

Lemma lxor_is_ulong a b : is_ulong a -> is_ulong b -> is_ulong (Z.lxor a b).
Proof.
  unfold is_ulong. intros [Ha0 Ha] [Hb0 Hb].
  assert (H0 : 0 <= Z.lxor a b) by (apply Z.lxor_nonneg; lia).
  split; [assumption |].
  destruct (Z.eq_dec (Z.lxor a b) 0) as [-> | Hne]; [apply pow2_pos |].
  apply Z.log2_lt_pow2; [lia |].
  eapply Z.le_lt_trans; [apply Z.log2_lxor; assumption |].
  destruct (Z.eq_dec a 0) as [-> | Hane], (Z.eq_dec b 0) as [-> | Hbne];
    change (Z.log2 0) with 0;
    try (assert (Z.log2 a < BITS_PER_LONG) by (apply Z.log2_lt_pow2; lia));
    try (assert (Z.log2 b < BITS_PER_LONG) by (apply Z.log2_lt_pow2; lia));
    lia.
Qed.

Lemma lor_is_ulong a b : is_ulong a -> is_ulong b -> is_ulong (Z.lor a b).
Proof.
  unfold is_ulong. intros [Ha0 Ha] [Hb0 Hb].
  split; [now apply Z.lor_nonneg |].
  apply lor_lt_pow2; lia.
Qed.

(** For a non-zero word [d], the top bit of [d ^ (d - 1)] is set exactly
    when [d] is the sign bit alone. *)
Lemma lxor_pred_top d :
  is_ulong d -> d <> 0 ->
  (SIGN_BIT <= Z.lxor d (d - 1) <-> d = SIGN_BIT).
Proof.
  intros Hd Hne.
  assert (Hd1 : is_ulong (d - 1)) by (unfold is_ulong in *; lia).
  pose proof (lxor_is_ulong _ _ Hd Hd1) as Hx.
  rewrite <- Z.leb_le, <- (testbit_top _ Hx), Z.lxor_spec.
  rewrite (testbit_top _ Hd), (testbit_top _ Hd1).
  destruct (Z.leb_spec SIGN_BIT d), (Z.leb_spec SIGN_BIT (d - 1)); simpl;
    split; intros; try discriminate; lia.
Qed.

Lemma to_ulong_borrow a :
  - 2 ^ BITS_PER_LONG <= a < 0 -> to_ulong a = a + 2 ^ BITS_PER_LONG.
Proof.
  intros Ha. unfold to_ulong. symmetry.
  apply (Z.mod_unique_pos _ _ (-1)); lia.
Qed.

Lemma ULONG_MAX_nonzero : ULONG_MAX <> 0.
Proof.
  unfold ULONG_MAX. pose proof pow2_half. pose proof half_pos. lia.
Qed.

(** ** What the two mask generators compute *)

(** The index mask is all-ones exactly when neither [index] nor the wrapped
    difference [size - 1 - index] has its sign bit set. *)
Lemma array_index_mask_nospec_spec index size :
  is_ulong index ->
  array_index_mask_nospec index size =
  if (index <? SIGN_BIT) && (to_ulong (to_ulong (size - 1) - index) <? SIGN_BIT)
  then ULONG_MAX else 0.
Proof.
  intros Hi. unfold array_index_mask_nospec, OPTIMIZER_HIDE_VAR.
  rewrite sign_fill_not.
  set (s := to_ulong (to_ulong (size - 1) - index)).
  pose proof (to_ulong_range (to_ulong (size - 1) - index)) as Hs. fold s in Hs.
  rewrite (to_ulong_small _ (lor_is_ulong _ _ Hi Hs)).
  unfold is_ulong in Hi, Hs.
  assert (Hk : 0 <= BITS_PER_LONG - 1) by lia.
  pose proof (lor_lt_pow2 index s (BITS_PER_LONG - 1) (proj1 Hi) (proj1 Hs) Hk)
    as Hlor.
  unfold SIGN_BIT.
  destruct (Z.ltb_spec (Z.lor index s) (2 ^ (BITS_PER_LONG - 1))),
    (Z.ltb_spec index (2 ^ (BITS_PER_LONG - 1))),
    (Z.ltb_spec s (2 ^ (BITS_PER_LONG - 1))); simpl; try reflexivity; lia.
Qed.

(** The equality mask is all-ones exactly when [x ^ y] is zero or the sign
    bit alone. *)
Lemma neq_mask_nospec_spec x y :
  is_ulong x -> is_ulong y ->
  neq_mask_nospec x y =
  if (Z.lxor x y =? 0) || (Z.lxor x y =? SIGN_BIT) then ULONG_MAX else 0.
Proof.
  intros Hx Hy. unfold neq_mask_nospec, OPTIMIZER_HIDE_VAR.
  rewrite sign_fill.
  pose proof (lxor_is_ulong _ _ Hx Hy) as Hd.
  set (d := Z.lxor x y) in *.
  pose proof pow2_half as Hh. pose proof half_pos as Hp.
  destruct (Z.eqb_spec d 0) as [Hd0 | Hd0]; simpl.
  - rewrite Hd0. simpl (0 - 1). rewrite to_ulong_m1, Z.lxor_0_l.
    rewrite (to_ulong_small _ ULONG_MAX_is_ulong).
    unfold ULONG_MAX, SIGN_BIT.
    destruct (Z.ltb_spec (2 ^ BITS_PER_LONG - 1) (2 ^ (BITS_PER_LONG - 1)));
      [lia | reflexivity].
  - assert (Hd1 : is_ulong (d - 1)) by (unfold is_ulong in *; lia).
    rewrite (to_ulong_small _ Hd1).
    rewrite (to_ulong_small _ (lxor_is_ulong _ _ Hd Hd1)).
    pose proof (lxor_pred_top d Hd Hd0) as Htop.
    destruct (Z.ltb_spec (Z.lxor d (d - 1)) SIGN_BIT),
      (Z.eqb_spec d SIGN_BIT); try reflexivity; lia.
Qed.

Lemma array_index_nospec_of_mask index size :
  is_ulong index ->
  array_index_nospec index size =
  if array_index_mask_nospec index size =? 0 then 0 else index.
Proof.
  intros Hi. unfold array_index_nospec.
  rewrite (array_index_mask_nospec_spec index size Hi).
  destruct ((index <? SIGN_BIT)
            && (to_ulong (to_ulong (size - 1) - index) <? SIGN_BIT)).
  - rewrite (land_ULONG_MAX _ Hi), (to_ulong_small _ Hi).
    destruct (Z.eqb_spec ULONG_MAX 0) as [E | _]; [| reflexivity].
    now destruct (ULONG_MAX_nonzero).
  - rewrite Z.land_0_r. simpl. apply Z.mod_0_l. pose proof pow2_pos; lia.
Qed.

(** ** The index mask generator and the index sanitizer *)

Lemma array_index_nospec_keep index size :
  is_ulong index ->
  array_index_mask_nospec index size = ULONG_MAX ->
  array_index_nospec index size = index.
Proof.
  intros Hi Hm. rewrite (array_index_nospec_of_mask _ _ Hi), Hm.
  destruct (Z.eqb_spec ULONG_MAX 0) as [E | _]; [| reflexivity].
  now destruct ULONG_MAX_nonzero.
Qed.

Lemma array_index_nospec_clamp index size :
  is_ulong index ->
  array_index_mask_nospec index size = 0 ->
  array_index_nospec index size = 0.
Proof.
  intros Hi Hm. now rewrite (array_index_nospec_of_mask _ _ Hi), Hm.
Qed.

(** For an in-bounds index the mask follows the two sign bits: it is the
    all-ones word exactly when both [index] and [size - 1 - index] are below
    [2^(BITS_PER_LONG-1)]. *)
Lemma array_index_mask_nospec_in_bounds_iff index size :
  is_ulong index -> is_ulong size -> index < size ->
  (array_index_mask_nospec index size = ULONG_MAX <->
   index < SIGN_BIT /\ size - 1 - index < SIGN_BIT).
Proof.
  intros Hi Hs Hlt.
  rewrite (array_index_mask_nospec_spec _ _ Hi).
  unfold is_ulong in *.
  rewrite (to_ulong_small (size - 1)) by (unfold is_ulong; lia).
  rewrite (to_ulong_small (size - 1 - index)) by (unfold is_ulong; lia).
  pose proof ULONG_MAX_nonzero as Hnz.
  destruct (Z.ltb_spec index SIGN_BIT),
    (Z.ltb_spec (size - 1 - index) SIGN_BIT); simpl;
    split; intros; try reflexivity; try lia; congruence.
Qed.

Lemma array_index_mask_nospec_lt index size :
  is_ulong index -> is_ulong size -> size <= SIGN_BIT -> index < size ->
  array_index_mask_nospec index size = ULONG_MAX.
Proof.
  intros Hi Hs Hmax Hlt.
  apply array_index_mask_nospec_in_bounds_iff; trivial.
  unfold is_ulong in *. lia.
Qed.

(** The wrapped difference of an out-of-bounds index carries the sign bit
    whenever the index itself does not. *)
Lemma out_of_bounds_sign index size :
  is_ulong index -> is_ulong size -> size <= index ->
  index < SIGN_BIT ->
  SIGN_BIT <= to_ulong (to_ulong (size - 1) - index).
Proof.
  unfold is_ulong, SIGN_BIT. intros Hi Hs Hge Hsmall.
  pose proof pow2_half as Hh. pose proof half_pos as Hp.
  destruct (Z.eq_dec size 0) as [-> | Hne].
  - simpl (0 - 1). rewrite to_ulong_m1. unfold ULONG_MAX.
    rewrite to_ulong_small by (unfold is_ulong; lia). lia.
  - rewrite (to_ulong_small (size - 1)) by (unfold is_ulong; lia).
    rewrite to_ulong_borrow by lia. lia.
Qed.

Lemma array_index_mask_nospec_ge index size :
  is_ulong index -> is_ulong size -> size <= index ->
  array_index_mask_nospec index size = 0.
Proof.
  intros Hi Hs Hge.
  rewrite (array_index_mask_nospec_spec _ _ Hi).
  destruct (Z.ltb_spec index SIGN_BIT) as [Hsmall | Hbig]; [| reflexivity].
  pose proof (out_of_bounds_sign _ _ Hi Hs Hge Hsmall) as Hsign.
  destruct (Z.ltb_spec (to_ulong (to_ulong (size - 1) - index)) SIGN_BIT);
    [lia | reflexivity].
Qed.

(** Where the sign bits allow it, an in-bounds index is kept: for unsigned
    words [index < size] with [size >= 1] such that neither [index] nor
    [size - 1 - index] has its most-significant bit set (both are below
    [2^(BITS_PER_LONG-1)], which holds for every in-bounds index when
    [size <= 2^(BITS_PER_LONG-1)]), the index mask is the all-ones word and
    the index sanitizer returns [index] unchanged. *)
Theorem array_index_nospec_in_bounds index size :
  is_ulong index -> is_ulong size ->
  1 <= size -> index < size ->
  index < SIGN_BIT -> size - 1 - index < SIGN_BIT ->
  array_index_mask_nospec index size = ULONG_MAX /\
  array_index_nospec index size = index.
Proof.
  intros Hi Hs _ Hlt Hsi Hsd.
  assert (Hm : array_index_mask_nospec index size = ULONG_MAX)
    by (apply array_index_mask_nospec_in_bounds_iff; auto).
  split; [exact Hm | now apply array_index_nospec_keep].
Qed.

(** C2: for unsigned words [index >= size], the index mask is the all-zeros
    word and the index sanitizer returns [0]. *)
Theorem array_index_nospec_out_of_bounds index size :
  is_ulong index -> is_ulong size -> size <= index ->
  array_index_mask_nospec index size = 0 /\
  array_index_nospec index size = 0.
Proof.
  intros Hi Hs Hge.
  pose proof (array_index_mask_nospec_ge _ _ Hi Hs Hge) as Hm.
  split; [exact Hm | now apply array_index_nospec_clamp].
Qed.

(** C7: the boundary cases of the index mask generator: [index = 0] with
    [size = 1] is in bounds (all-ones); [index = size] is out of bounds
    (all-zeros) for every word; the largest word with [size = 1] is out of
    bounds (all-zeros). *)
Theorem array_index_mask_nospec_boundaries :
  array_index_mask_nospec 0 1 = ULONG_MAX /\
  (forall size, is_ulong size -> array_index_mask_nospec size size = 0) /\
  array_index_mask_nospec ULONG_MAX 1 = 0.
Proof.
  pose proof pow2_half as Hh. pose proof half_pos as Hp.
  assert (H1 : is_ulong 1) by (unfold is_ulong; lia).
  assert (H0 : is_ulong 0) by (unfold is_ulong; lia).
  split; [| split].
  - apply array_index_mask_nospec_lt; unfold SIGN_BIT; trivial; lia.
  - intros size Hs. apply array_index_mask_nospec_ge; trivial; lia.
  - apply array_index_mask_nospec_ge;
      [apply ULONG_MAX_is_ulong | exact H1 | unfold ULONG_MAX; lia].
Qed.

(** C10: with [size = 0] every index is out of bounds: the index mask is
    the all-zeros word and the index sanitizer returns [0]. *)
Theorem array_index_nospec_size_zero index :
  is_ulong index ->
  array_index_mask_nospec index 0 = 0 /\ array_index_nospec index 0 = 0.
Proof.
  intros Hi.
  assert (H0 : is_ulong 0) by (unfold is_ulong; pose proof pow2_pos; lia).
  assert (Hm : array_index_mask_nospec index 0 = 0)
    by (apply array_index_mask_nospec_ge; unfold is_ulong in *; trivial; lia).
  split; [exact Hm | now apply array_index_nospec_clamp].
Qed.

(** C6: the index sanitizer is idempotent: sanitizing an already sanitized
    index against the same [size] changes nothing. *)
Theorem array_index_nospec_idempotent index size :
  is_ulong index -> is_ulong size ->
  array_index_nospec (array_index_nospec index size) size =
  array_index_nospec index size.
Proof.
  intros Hi Hs.
  rewrite (array_index_nospec_of_mask index size Hi).
  destruct (Z.eqb_spec (array_index_mask_nospec index size) 0) as [Hz | Hnz].
  - (* clamped to 0: [0 & mask] is 0 whatever the second mask is *)
    unfold array_index_nospec. rewrite Z.land_0_l.
    apply Z.mod_0_l. pose proof pow2_pos; lia.
  - (* kept: the same mask is computed again *)
    rewrite (array_index_nospec_of_mask index size Hi).
    destruct (Z.eqb_spec (array_index_mask_nospec index size) 0);
      [contradiction | reflexivity].
Qed.

(** ** The equality mask generator *)

Lemma neq_mask_nospec_same x : is_ulong x -> neq_mask_nospec x x = ULONG_MAX.
Proof.
  intros Hx. rewrite (neq_mask_nospec_spec _ _ Hx Hx), Z.lxor_nilpotent.
  reflexivity.
Qed.

Lemma neq_mask_nospec_sign x y :
  is_ulong x -> is_ulong y -> Z.lxor x y = SIGN_BIT ->
  neq_mask_nospec x y = ULONG_MAX.
Proof.
  intros Hx Hy Hd. rewrite (neq_mask_nospec_spec _ _ Hx Hy), Hd.
  now rewrite Z.eqb_refl, orb_true_r.
Qed.

Lemma neq_mask_nospec_other x y :
  is_ulong x -> is_ulong y -> Z.lxor x y <> 0 -> Z.lxor x y <> SIGN_BIT ->
  neq_mask_nospec x y = 0.
Proof.
  intros Hx Hy H0 Hs. rewrite (neq_mask_nospec_spec _ _ Hx Hy).
  destruct (Z.eqb_spec (Z.lxor x y) 0), (Z.eqb_spec (Z.lxor x y) SIGN_BIT);
    simpl; trivial; contradiction.
Qed.

(** C3: for unsigned words, [x == y] gives the all-ones word; [x != y]
    gives the all-zeros word provided the bits in which they differ are not
    the sign bit alone, that is [x ^ y] is not [2^(BITS_PER_LONG-1)]. *)
Theorem neq_mask_nospec_exact_off_sign x y :
  is_ulong x -> is_ulong y ->
  (x = y -> neq_mask_nospec x y = ULONG_MAX) /\
  (x <> y -> Z.lxor x y <> SIGN_BIT -> neq_mask_nospec x y = 0).
Proof.
  intros Hx Hy. split.
  - intros <-. now apply neq_mask_nospec_same.
  - intros Hne Hs. apply neq_mask_nospec_other; trivial.
    now rewrite Z.lxor_eq_0_iff.
Qed.

(** C9: the equality mask is the all-ones word exactly when [x ^ y] is [0]
    or the sign bit alone, and the all-zeros word in every other case; so
    two unequal words that differ only in the sign bit get the all-ones
    mask, as equal words do. *)
Theorem neq_mask_nospec_characterised x y :
  is_ulong x -> is_ulong y ->
  (neq_mask_nospec x y = ULONG_MAX <->
   Z.lxor x y = 0 \/ Z.lxor x y = SIGN_BIT) /\
  (~ (Z.lxor x y = 0 \/ Z.lxor x y = SIGN_BIT) -> neq_mask_nospec x y = 0) /\
  (x <> y -> Z.lxor x y = SIGN_BIT -> neq_mask_nospec x y = ULONG_MAX).
Proof.
  intros Hx Hy. pose proof ULONG_MAX_nonzero as Hnz.
  split; [| split].
  - split.
    + intros Hm.
      destruct (Z.eq_dec (Z.lxor x y) 0) as [E0 | N0]; [now left |].
      destruct (Z.eq_dec (Z.lxor x y) SIGN_BIT) as [Es | Ns]; [now right |].
      rewrite (neq_mask_nospec_other _ _ Hx Hy N0 Ns) in Hm. congruence.
    + intros [E0 | Es].
      * apply (proj1 (Z.lxor_eq_0_iff x y)) in E0. rewrite <- E0.
        now apply neq_mask_nospec_same.
      * now apply neq_mask_nospec_sign.
  - intros Hn. apply neq_mask_nospec_other; trivial; intros E; apply Hn; tauto.
  - intros _ Es. now apply neq_mask_nospec_sign.
Qed.

(** C5: whatever the inputs, each mask generator returns the all-ones word
    or the all-zeros word, never a partial bit pattern. *)
Theorem masks_are_full index size x y :
  (array_index_mask_nospec index size = ULONG_MAX \/
   array_index_mask_nospec index size = 0) /\
  (neq_mask_nospec x y = ULONG_MAX \/ neq_mask_nospec x y = 0).
Proof.
  split.
  - unfold array_index_mask_nospec. rewrite sign_fill_not.
    match goal with |- context [if ?b then _ else _] => destruct b end; auto.
  - unfold neq_mask_nospec. rewrite sign_fill.
    match goal with |- context [if ?b then _ else _] => destruct b end; auto.
Qed.

(** ** Further facts about the sanitizers *)

Lemma to_ulong_0 : to_ulong 0 = 0.
Proof. unfold to_ulong. apply Z.mod_0_l. pose proof pow2_pos; lia. Qed.

Lemma to_long_small x : 0 <= x < SIGN_BIT -> to_long x = x.
Proof.
  unfold SIGN_BIT. intros Hx. pose proof pow2_half as Hh.
  unfold to_long. rewrite to_ulong_small by (unfold is_ulong; lia).
  destruct (Z.ltb_spec x (2 ^ (BITS_PER_LONG - 1))); [reflexivity | lia].
Qed.

Lemma below_sign_is_ulong x : 0 <= x < SIGN_BIT -> is_ulong x.
Proof.
  unfold SIGN_BIT, is_ulong. pose proof pow2_half. pose proof half_pos. lia.
Qed.

Lemma neq_mask_nospec_full x y :
  neq_mask_nospec x y = ULONG_MAX \/ neq_mask_nospec x y = 0.
Proof.
  unfold neq_mask_nospec. rewrite sign_fill.
  match goal with |- context [if ?b then _ else _] => destruct b end; auto.
Qed.

(** Two words below the sign bit never differ in the sign bit. *)
Lemma lxor_below_sign x y :
  0 <= x < SIGN_BIT -> 0 <= y < SIGN_BIT -> Z.lxor x y <> SIGN_BIT.
Proof.
  intros Hx Hy E.
  pose proof (below_sign_is_ulong _ Hx) as Hxu.
  pose proof (below_sign_is_ulong _ Hy) as Hyu.
  pose proof (lxor_is_ulong _ _ Hxu Hyu) as Hd.
  pose proof (testbit_top _ Hd) as Ht. rewrite Z.lxor_spec in Ht.
  rewrite (testbit_top _ Hxu), (testbit_top _ Hyu), E in Ht.
  rewrite Z.leb_refl in Ht.
  destruct (Z.leb_spec SIGN_BIT x), (Z.leb_spec SIGN_BIT y);
    simpl in Ht; try discriminate; lia.
Qed.

Lemma array_index_mask_nospec_sign index size :
  is_ulong index -> SIGN_BIT <= index ->
  array_index_mask_nospec index size = 0.
Proof.
  intros Hi Hs. rewrite (array_index_mask_nospec_spec _ _ Hi).
  destruct (Z.ltb_spec index SIGN_BIT); [lia | reflexivity].
Qed.

(** X1: the all-ones index mask is given to in-bounds indexes only, and among
    them exactly to those for which neither [index] nor [size - 1 - index]
    has the top bit set. *)
Theorem array_index_mask_nospec_ones_iff index size :
  is_ulong index -> is_ulong size ->
  (array_index_mask_nospec index size = ULONG_MAX <->
   index < size /\ index < SIGN_BIT /\ size - 1 - index < SIGN_BIT).
Proof.
  intros Hi Hs. destruct (Z.lt_ge_cases index size) as [Hlt | Hge].
  - rewrite (array_index_mask_nospec_in_bounds_iff _ _ Hi Hs Hlt). tauto.
  - rewrite (array_index_mask_nospec_ge _ _ Hi Hs Hge).
    pose proof ULONG_MAX_nonzero. split; [congruence | lia].
Qed.

(** X2: the sanitized index is [index] itself or [0], and for any [size >= 1]
    it lies in [[0, size)], whether or not [index] was in bounds. *)
Theorem array_index_nospec_clamps index size :
  is_ulong index -> is_ulong size -> 1 <= size ->
  (array_index_nospec index size = index \/
   array_index_nospec index size = 0) /\
  0 <= array_index_nospec index size < size.
Proof.
  intros Hi Hs H1. rewrite (array_index_nospec_of_mask _ _ Hi).
  destruct (Z.eqb_spec (array_index_mask_nospec index size) 0) as [Hz | Hnz].
  - split; [now right | lia].
  - split; [now left |].
    destruct (Z.lt_ge_cases index size) as [Hlt | Hge].
    + unfold is_ulong in Hi. lia.
    + now rewrite (array_index_mask_nospec_ge _ _ Hi Hs Hge) in Hnz.
Qed.

(** X3: an index with the top bit set (a negative value of a signed type, once
    converted) is rejected whatever [size] is. *)
Theorem array_index_nospec_rejects_sign index size :
  is_ulong index -> SIGN_BIT <= index ->
  array_index_mask_nospec index size = 0 /\ array_index_nospec index size = 0.
Proof.
  intros Hi Hsign.
  pose proof (array_index_mask_nospec_sign _ size Hi Hsign) as Hm.
  split; [exact Hm | now apply array_index_nospec_clamp].
Qed.

(** X4: at the signed type [long], for a [size] of at most
    [2^(BITS_PER_LONG-1)], the sanitizer is exactly the bounds check
    [0 <= index < size]: the index when it holds, [0] when it does not. *)
Theorem array_index_nospec_long_exact index size :
  - SIGN_BIT <= index < SIGN_BIT -> is_ulong size -> size <= SIGN_BIT ->
  array_index_nospec_long index size =
  if (0 <=? index) && (index <? size) then index else 0.
Proof.
  intros Hi Hs Hmax. unfold array_index_nospec_long.
  pose proof pow2_half as Hh. pose proof half_pos as Hp.
  assert (Hz : to_long 0 = 0) by (apply to_long_small; unfold SIGN_BIT; lia).
  unfold SIGN_BIT in Hi, Hmax.
  destruct (Z.leb_spec 0 index) as [Hnn | Hneg]; simpl.
  - assert (Hiu : is_ulong index) by (unfold is_ulong; lia).
    rewrite (to_ulong_small _ Hiu).
    destruct (Z.ltb_spec index size) as [Hlt | Hge].
    + rewrite array_index_mask_nospec_lt by (trivial; unfold SIGN_BIT; lia).
      rewrite (land_ULONG_MAX _ Hiu).
      apply to_long_small. unfold SIGN_BIT. lia.
    + rewrite (array_index_mask_nospec_ge _ _ Hiu Hs Hge).
      now rewrite Z.land_0_r.
  - rewrite (to_ulong_borrow index) by lia.
    rewrite array_index_mask_nospec_sign
      by (unfold is_ulong, SIGN_BIT; lia).
    now rewrite Z.land_0_r.
Qed.

(** X5: sanitizing against two sizes, one after the other, is sanitizing
    against the smaller one (sizes of at most [2^(BITS_PER_LONG-1)]); so
    the order of the two does not matter. *)
Theorem array_index_nospec_compose index s1 s2 :
  is_ulong index -> is_ulong s1 -> is_ulong s2 ->
  s1 <= SIGN_BIT -> s2 <= SIGN_BIT ->
  array_index_nospec (array_index_nospec index s1) s2 =
  array_index_nospec index (Z.min s1 s2) /\
  array_index_nospec (array_index_nospec index s1) s2 =
  array_index_nospec (array_index_nospec index s2) s1.
Proof.
  intros Hi H1 H2 Hm1 Hm2.
  assert (H0 : is_ulong 0) by (unfold is_ulong; pose proof pow2_pos; lia).
  assert (Hzero : forall s, array_index_nospec 0 s = 0).
  { intros s. unfold array_index_nospec. rewrite Z.land_0_l. apply to_ulong_0. }
  assert (Hval : forall s, is_ulong s -> s <= SIGN_BIT ->
            array_index_nospec index s = if index <? s then index else 0).
  { intros s Hs Hms. destruct (Z.ltb_spec index s) as [Hlt | Hge].
    - apply array_index_nospec_keep; trivial.
      now apply array_index_mask_nospec_lt.
    - apply array_index_nospec_clamp; trivial.
      now apply array_index_mask_nospec_ge. }
  assert (Hmin : is_ulong (Z.min s1 s2)) by (unfold is_ulong in *; lia).
  rewrite (Hval s1 H1 Hm1), (Hval s2 H2 Hm2), (Hval _ Hmin) by lia.
  destruct (Z.ltb_spec index s1), (Z.ltb_spec index s2),
    (Z.ltb_spec index (Z.min s1 s2)); try lia;
    rewrite ?Hzero, ?(Hval s1 H1 Hm1), ?(Hval s2 H2 Hm2);
    repeat match goal with
           | |- context [?a <? ?b] => destruct (Z.ltb_spec a b); try lia
           end; auto.
Qed.

(** X6: the equality mask does not depend on the order of its operands. *)
Theorem neq_mask_nospec_sym x y :
  neq_mask_nospec x y = neq_mask_nospec y x.
Proof.
  unfold neq_mask_nospec, OPTIMIZER_HIDE_VAR.
  now rewrite (Z.lxor_comm x y).
Qed.

(** X7: on operands whose top bit is clear the equality mask is exact: the
    all-ones word when they are equal and the all-zeros word when they are
    not. *)
Theorem neq_mask_nospec_exact_below_sign x y :
  0 <= x < SIGN_BIT -> 0 <= y < SIGN_BIT ->
  neq_mask_nospec x y = if x =? y then ULONG_MAX else 0.
Proof.
  intros Hx Hy.
  pose proof (below_sign_is_ulong _ Hx) as Hxu.
  pose proof (below_sign_is_ulong _ Hy) as Hyu.
  destruct (Z.eqb_spec x y) as [<- | Hne].
  - now apply neq_mask_nospec_same.
  - apply neq_mask_nospec_other; trivial.
    + now rewrite Z.lxor_eq_0_iff.
    + now apply lxor_below_sign.
Qed.

(** ** The magic-guarded pointer sanitizer *)

Section Guarded.

Context {T : Type} `{SpecMagic T}.
Variable h : heap T.

(** A matching guard lets the pointer through unchanged. *)
Lemma magic_neq_nospec_match p magic obj :
  is_ulong p -> is_ulong magic ->
  h p = Some obj -> spec_magic obj = magic ->
  magic_neq_nospec h p magic = Some p.
Proof.
  intros Hp Hm Hobj Hg. unfold magic_neq_nospec. rewrite Hobj, Hg.
  rewrite (to_ulong_small _ Hm), (to_ulong_small _ Hp).
  rewrite (neq_mask_nospec_same _ Hm). now rewrite land_ULONG_MAX.
Qed.

(** A guard that differs from [magic] in more than the sign bit alone
    turns the pointer into the null pointer. *)
Lemma magic_neq_nospec_mismatch p magic obj :
  is_ulong p -> is_ulong magic -> is_ulong (spec_magic obj) ->
  h p = Some obj -> spec_magic obj <> magic ->
  Z.lxor (spec_magic obj) magic <> SIGN_BIT ->
  magic_neq_nospec h p magic = Some NULL.
Proof.
  intros Hp Hm Hg Hobj Hne Hs. unfold magic_neq_nospec. rewrite Hobj.
  rewrite (to_ulong_small _ Hm), (to_ulong_small _ Hg).
  rewrite neq_mask_nospec_other; trivial.
  - now rewrite Z.land_0_r.
  - now rewrite Z.lxor_eq_0_iff.
Qed.

(** A guard that differs from [magic] in the sign bit alone lets the
    pointer through. *)
Lemma magic_neq_nospec_sign_mismatch p magic obj :
  is_ulong p -> is_ulong magic -> is_ulong (spec_magic obj) ->
  h p = Some obj -> Z.lxor (spec_magic obj) magic = SIGN_BIT ->
  magic_neq_nospec h p magic = Some p.
Proof.
  intros Hp Hm Hg Hobj Hs. unfold magic_neq_nospec. rewrite Hobj.
  rewrite (to_ulong_small _ Hm), (to_ulong_small _ Hg), (to_ulong_small _ Hp).
  rewrite neq_mask_nospec_sign; trivial. now rewrite land_ULONG_MAX.
Qed.

(** X9: whatever the guard holds, the sanitizer hands back the pointer itself
    or the null pointer, never some other address. *)
Theorem magic_neq_nospec_p_or_null p magic obj :
  is_ulong p -> h p = Some obj ->
  magic_neq_nospec h p magic = Some p \/
  magic_neq_nospec h p magic = Some NULL.
Proof.
  intros Hp Hobj. unfold magic_neq_nospec. rewrite Hobj.
  rewrite (to_ulong_small _ Hp).
  destruct (neq_mask_nospec_full (to_ulong (spec_magic obj)) (to_ulong magic))
    as [-> | ->].
  - left. now rewrite land_ULONG_MAX.
  - right. now rewrite Z.land_0_r.
Qed.

(** X8: when the guard and the constant both have a clear top bit (as every
    value of a type narrower than [long] has once it is zero-extended), the
    sanitizer decides equality exactly: the pointer for a matching guard,
    the null pointer for every other guard. *)
Theorem magic_neq_nospec_exact_below_sign p magic obj :
  is_ulong p -> h p = Some obj ->
  0 <= spec_magic obj < SIGN_BIT -> 0 <= magic < SIGN_BIT ->
  magic_neq_nospec h p magic =
  Some (if spec_magic obj =? magic then p else NULL).
Proof.
  intros Hp Hobj Hg Hm.
  assert (Hgu : is_ulong (spec_magic obj)) by (now apply below_sign_is_ulong).
  assert (Hmu : is_ulong magic) by (now apply below_sign_is_ulong).
  destruct (Z.eqb_spec (spec_magic obj) magic) as [E | N].
  - now apply (magic_neq_nospec_match p magic obj).
  - apply (magic_neq_nospec_mismatch p magic obj); trivial.
    now apply lxor_below_sign.
Qed.

End Guarded.

End Nospec.

(** ** The speculation fence *)

(** C8: the default [barrier_nospec()] takes no argument, yields no value
    and completes with every part of the program state unchanged. *)
Theorem barrier_nospec_noop (S : Type) (fuel : nat) (s : S) :
  barrier_nospec (Datatypes.S fuel) s = Some s.
Proof. reflexivity. Qed.

(** ** A 64-bit instance

    The statements above at [BITS_PER_LONG = 64], on concrete words and on
    a heap that holds one guarded structure. *)

Ltac word64 := unfold is_ulong, SIGN_BIT, ULONG_MAX; simpl; lia.

Lemma array_index_nospec_in_bounds_witness :
  is_ulong 64 7 /\ is_ulong 64 10 /\ 7 < 10 /\
  7 < SIGN_BIT 64 /\ 10 - 1 - 7 < SIGN_BIT 64 /\
  array_index_mask_nospec 64 7 10 = ULONG_MAX 64 /\
  array_index_nospec 64 7 10 = 7.
Proof.
  repeat (split; [word64 |]).
  apply (array_index_nospec_in_bounds 64); word64.
Defined.

(** C1 at the failing input: [index = 1] is in bounds of
    [size = 2^64 - 1], yet [size - 1 - index] has its sign bit set, so the
    index mask is the all-zeros word, not the all-ones word that "a ~0 mask
    when index < size" announces, and the index is clamped to [0] instead
    of being returned unchanged. *)
Lemma array_index_nospec_in_bounds_large_size :
  is_ulong 64 1 /\ is_ulong 64 (2 ^ 64 - 1) /\
  1 <= 2 ^ 64 - 1 /\ 1 < 2 ^ 64 - 1 /\
  array_index_mask_nospec 64 1 (2 ^ 64 - 1) = 0 /\
  array_index_mask_nospec 64 1 (2 ^ 64 - 1) <> ULONG_MAX 64 /\
  array_index_nospec 64 1 (2 ^ 64 - 1) = 0 /\
  array_index_nospec 64 1 (2 ^ 64 - 1) <> 1.
Proof.
  repeat split; try word64; try reflexivity; vm_compute; discriminate.
Qed.

Lemma array_index_nospec_out_of_bounds_witness :
  is_ulong 64 10 /\ is_ulong 64 10 /\ 10 <= 10 /\
  array_index_mask_nospec 64 10 10 = 0 /\ array_index_nospec 64 10 10 = 0.
Proof.
  split; [word64 | split; [word64 | split; [lia |]]].
  apply (array_index_nospec_out_of_bounds 64); word64.
Defined.

Lemma array_index_mask_nospec_boundaries_witness :
  array_index_mask_nospec 64 0 1 = ULONG_MAX 64 /\
  (forall size, is_ulong 64 size -> array_index_mask_nospec 64 size size = 0) /\
  array_index_mask_nospec 64 (ULONG_MAX 64) 1 = 0.
Proof. apply (array_index_mask_nospec_boundaries 64); lia. Defined.

Lemma array_index_nospec_size_zero_witness :
  is_ulong 64 3 /\
  array_index_mask_nospec 64 3 0 = 0 /\ array_index_nospec 64 3 0 = 0.
Proof.
  split; [word64 |]. apply (array_index_nospec_size_zero 64); word64.
Defined.

Lemma array_index_nospec_idempotent_witness :
  is_ulong 64 7 /\ is_ulong 64 10 /\
  array_index_nospec 64 (array_index_nospec 64 7 10) 10 =
  array_index_nospec 64 7 10.
Proof.
  split; [word64 | split; [word64 |]].
  apply (array_index_nospec_idempotent 64); word64.
Defined.

Lemma neq_mask_nospec_exact_off_sign_witness :
  is_ulong 64 0xABCD /\ is_ulong 64 0x1234 /\
  (0xABCD = 0x1234 -> neq_mask_nospec 64 0xABCD 0x1234 = ULONG_MAX 64) /\
  (0xABCD <> 0x1234 -> Z.lxor 0xABCD 0x1234 <> SIGN_BIT 64 ->
   neq_mask_nospec 64 0xABCD 0x1234 = 0).
Proof.
  split; [word64 | split; [word64 |]].
  apply (neq_mask_nospec_exact_off_sign 64); word64.
Defined.

Lemma neq_mask_nospec_characterised_witness :
  is_ulong 64 (2 ^ 63 + 5) /\ is_ulong 64 5 /\
  (neq_mask_nospec 64 (2 ^ 63 + 5) 5 = ULONG_MAX 64 <->
   Z.lxor (2 ^ 63 + 5) 5 = 0 \/ Z.lxor (2 ^ 63 + 5) 5 = SIGN_BIT 64) /\
  (~ (Z.lxor (2 ^ 63 + 5) 5 = 0 \/ Z.lxor (2 ^ 63 + 5) 5 = SIGN_BIT 64) ->
   neq_mask_nospec 64 (2 ^ 63 + 5) 5 = 0) /\
  (2 ^ 63 + 5 <> 5 -> Z.lxor (2 ^ 63 + 5) 5 = SIGN_BIT 64 ->
   neq_mask_nospec 64 (2 ^ 63 + 5) 5 = ULONG_MAX 64).
Proof.
  split; [word64 | split; [word64 |]].
  apply (neq_mask_nospec_characterised 64); word64.
Defined.

Lemma masks_are_full_witness :
  (array_index_mask_nospec 64 7 10 = ULONG_MAX 64 \/
   array_index_mask_nospec 64 7 10 = 0) /\
  (neq_mask_nospec 64 0xABCD 0x1234 = ULONG_MAX 64 \/
   neq_mask_nospec 64 0xABCD 0x1234 = 0).
Proof. apply (masks_are_full 64); lia. Defined.

(** The example of the guard [0xABCD]: the matching constant returns the
    pointer, the constant [0x1234] returns the null pointer. *)
Example magic_neq_nospec_abcd :
  let h := heap_at 0x1000 {| obj_spec_magic := 0xABCD; obj_val := 7 |} in
  magic_neq_nospec 64 h 0x1000 0xABCD = Some 0x1000 /\
  magic_neq_nospec 64 h 0x1000 0x1234 = Some NULL.
Proof. split; reflexivity. Qed.

(** C4 at the failing input: the structure at [0x1000] holds the guard
    [0x800000000000ABCD], which differs from the expected [0xABCD] in the
    sign bit alone; the sanitizer returns the pointer [0x1000], not the
    null pointer. *)
Theorem magic_neq_nospec_sign_bit_passes :
  let o := {| obj_spec_magic := 0x800000000000ABCD; obj_val := 7 |} in
  let h := heap_at 0x1000 o in
  is_ulong 64 (spec_magic o) /\ spec_magic o <> 0xABCD /\
  magic_neq_nospec 64 h 0x1000 0xABCD = Some 0x1000 /\
  magic_neq_nospec 64 h 0x1000 0xABCD <> Some NULL.
Proof.
  repeat split; try (vm_compute; discriminate).
Qed.

(** *** The further facts at 64 bits *)

Lemma array_index_mask_nospec_ones_iff_witness :
  array_index_mask_nospec 64 7 10 = ULONG_MAX 64 <->
  7 < 10 /\ 7 < SIGN_BIT 64 /\ 10 - 1 - 7 < SIGN_BIT 64.
Proof. apply (array_index_mask_nospec_ones_iff 64); word64. Defined.

Lemma array_index_nospec_clamps_witness :
  (array_index_nospec 64 (2 ^ 64 - 1) 10 = 2 ^ 64 - 1 \/
   array_index_nospec 64 (2 ^ 64 - 1) 10 = 0) /\
  0 <= array_index_nospec 64 (2 ^ 64 - 1) 10 < 10.
Proof. apply (array_index_nospec_clamps 64); word64. Defined.

Lemma array_index_nospec_rejects_sign_witness :
  array_index_mask_nospec 64 (2 ^ 64 - 1) (2 ^ 64 - 1) = 0 /\
  array_index_nospec 64 (2 ^ 64 - 1) (2 ^ 64 - 1) = 0.
Proof. apply (array_index_nospec_rejects_sign 64); word64. Defined.

Lemma array_index_nospec_long_exact_witness :
  array_index_nospec_long 64 (-1) 10 =
  if (0 <=? -1) && (-1 <? 10) then -1 else 0.
Proof. apply (array_index_nospec_long_exact 64); word64. Defined.

Lemma array_index_nospec_compose_witness :
  array_index_nospec 64 (array_index_nospec 64 7 10) 8 =
  array_index_nospec 64 7 (Z.min 10 8) /\
  array_index_nospec 64 (array_index_nospec 64 7 10) 8 =
  array_index_nospec 64 (array_index_nospec 64 7 8) 10.
Proof. apply (array_index_nospec_compose 64); word64. Defined.

Lemma neq_mask_nospec_exact_below_sign_witness :
  neq_mask_nospec 64 0xABCD 0x1234 =
  if 0xABCD =? 0x1234 then ULONG_MAX 64 else 0.
Proof. apply (neq_mask_nospec_exact_below_sign 64); word64. Defined.

Lemma magic_neq_nospec_p_or_null_witness :
  let h := heap_at 0x1000 {| obj_spec_magic := 0xABCD; obj_val := 7 |} in
  magic_neq_nospec 64 h 0x1000 0x1234 = Some 0x1000 \/
  magic_neq_nospec 64 h 0x1000 0x1234 = Some NULL.
Proof.
  apply (magic_neq_nospec_p_or_null 64) with
    (obj := {| obj_spec_magic := 0xABCD; obj_val := 7 |});
    [lia | word64 | reflexivity].
Defined.

Lemma magic_neq_nospec_exact_below_sign_witness :
  let o := {| obj_spec_magic := 0xABCD; obj_val := 7 |} in
  magic_neq_nospec 64 (heap_at 0x1000 o) 0x1000 0x1234 =
  Some (if spec_magic o =? 0x1234 then 0x1000 else NULL).
Proof.
  apply (magic_neq_nospec_exact_below_sign 64) with
    (obj := {| obj_spec_magic := 0xABCD; obj_val := 7 |});
    [lia | word64 | reflexivity
    | vm_compute; split; [discriminate | reflexivity] | word64].
Defined.

(** * The suspend/resume MSR self-test
    ([tools/testing/selftests/x86/suspend_msr_restore.c])

    The program talks to the operating system only; what the system answers
    is the input of the model, what the program calls is logged, in order,
    in a list of events. [int] values are exact integers of [Z]; the two
    multiplications are checked against the range of [int], and an
    out-of-range product or an array access outside the allocated block
    leaves the program without a defined result ([None]). *)

From Stdlib Require Import List.
Import ListNotations.

Module MsrRestore.

Definition MSR_IA32_SPEC_CTRL : Z := 0x00000048.
Definition MSR_IA32_TSX_CTRL : Z := 0x00000122.
Definition MSR_TSX_FORCE_ABORT : Z := 0x0000010F.
Definition MSR_IA32_MCU_OPT_CTRL : Z := 0x00000123.
Definition MSR_AMD64_LS_CFG : Z := 0xc0011020.
Definition MSR_AMD64_DE_CFG : Z := 0xc0011029.

Definition INT_MAX : Z := 2 ^ 31 - 1.
Definition INT_MIN : Z := - 2 ^ 31.

(** The conversion of a wider integer to [int]: the low 32 bits, read in
    two's complement. *)
Definition to_int (x : Z) : Z := (x - INT_MIN) mod 2 ^ 32 + INT_MIN.

(** [struct msr_cache]. *)
Record msr_cache : Type :=
  { msr_id : Z; msr_val : Z; valid : bool }.

(** An element of memory returned by [calloc]: all bytes zero. *)
Definition zeroed : msr_cache :=
  {| msr_id := 0; msr_val := 0; valid := false |}.

(** The files the program opens. *)
Inductive path : Type :=
| sys_power_state               (* "/sys/power/state" *)
| dev_cpu_msr (cpu : Z).        (* "/dev/cpu/%d/msr" *)

(** The messages of [ksft_test_result_error] and [ksft_exit_fail_msg]. *)
Inductive message : Type :=
| open_power_state_failed
| timerfd_create_failed
| timerfd_settime_failed
| enter_suspend_failed
| rerun_as_root
| sched_getaffinity_failed
| memory_allocation_failed.

(** The calls the program makes, with the values they returned. *)
Inductive event : Type :=
| ev_open (f : path) (ret : Z)
| ev_timerfd_create (ret : Z)
| ev_timerfd_settime (fd tv_sec ret : Z)
| ev_write_mem (fd ret : Z)
| ev_pread (fd offset ret : Z)
| ev_close (fd : Z)
| ev_perror
| ev_free
| ksft_print_header
| ksft_set_plan (plan : Z)
| ksft_test_result_error (m : message)
| ksft_test_result_fail_read (msr cpu : Z)
| ksft_test_result_fail_value (cpu msr after before : Z)
| ksft_test_result_pass (cpu msr val : Z).

(** How the program ends: the three [ksft_exit_*] calls do not return. *)
Inductive exit : Type :=
| ksft_exit_pass
| ksft_exit_fail
| ksft_exit_fail_msg (m : message).

(** What the system answers to the four calls of [suspend]. *)
Record power : Type :=
  { open_state_ret : Z;         (* open("/sys/power/state", O_RDWR) *)
    timerfd_create_ret : Z;     (* timerfd_create(CLOCK_BOOTTIME_ALARM, 0) *)
    timerfd_settime_ret : Z;    (* timerfd_settime(timerfd, 0, &spec, NULL) *)
    write_ret : Z }.            (* write(power_state_fd, "mem", 3) *)

(** What [pread] did: the count it returned, the eight bytes it stored when
    that count is eight, and what it left in the buffer otherwise. *)
Record pread_out : Type :=
  { pr_ret : Z; pr_data : Z; pr_short : Z -> Z }.

(** The MSR device files at one point in time: the answer to [open] and to
    [pread] for each CPU and MSR. *)
Record msr_dev : Type :=
  { dev_open : Z -> Z -> Z;
    dev_pread : Z -> Z -> pread_out }.

(** [strlen("mem")] and [sizeof(long long)]. *)
Definition strlen_mem : Z := 3.
Definition sizeof_long_long : Z := 8.

(** The labels at the end of [suspend]: each falls through to the next. *)
Definition suspend_exit (log : list event) (ret : Z) : list event * Z :=
  (log, ret).

Definition cleanup_power_state (power_state_fd : Z)
  (log : list event) (ret : Z) : list event * Z :=
  suspend_exit (log ++ [ev_close power_state_fd]) ret.

Definition cleanup_timer (timerfd power_state_fd : Z)
  (log : list event) (ret : Z) : list event * Z :=
  cleanup_power_state power_state_fd (log ++ [ev_close timerfd]) ret.

(** [int suspend(void)]. A [write] count, a [ssize_t], equals the [size_t]
    [strlen("mem")] after conversion exactly when it is [3]. *)
Definition suspend (h : power) : list event * Z :=
  let ret := -1 in
  let power_state_fd := open_state_ret h in
  let log := [ev_open sys_power_state power_state_fd] in
  if power_state_fd <? 0 then
    suspend_exit
      (log ++ [ksft_test_result_error open_power_state_failed]) ret
  else
    let timerfd := timerfd_create_ret h in
    let log := log ++ [ev_timerfd_create timerfd] in
    if timerfd <? 0 then
      cleanup_power_state power_state_fd
        (log ++ [ksft_test_result_error timerfd_create_failed]) ret
    else
      let ret := timerfd_settime_ret h in
      let log := log ++ [ev_timerfd_settime timerfd 5 ret] in
      if ret <? 0 then
        cleanup_timer timerfd power_state_fd
          (log ++ [ksft_test_result_error timerfd_settime_failed]) ret
      else
        let written := write_ret h in
        let log := log ++ [ev_write_mem power_state_fd written] in
        if negb (written =? strlen_mem) then
          cleanup_timer timerfd power_state_fd
            (log ++ [ksft_test_result_error enter_suspend_failed]) (-1)
        else
          cleanup_timer timerfd power_state_fd log 0.

(** *** The array [msrs]

    A block of [blk_len] elements; an access outside it has no result. *)
Record block : Type :=
  { blk_len : Z; blk_at : Z -> msr_cache }.

Definition load (b : block) (i : Z) : option msr_cache :=
  if (0 <=? i) && (i <? blk_len b) then Some (blk_at b i) else None.

Definition store (b : block) (i : Z) (v : msr_cache) : option block :=
  if (0 <=? i) && (i <? blk_len b) then
    Some {| blk_len := blk_len b;
            blk_at := fun j => if j =? i then v else blk_at b j |}
  else None.

(** A product of two [int]s; there is none when it overflows. *)
Definition int_mul (a b : Z) : option Z :=
  if (INT_MIN <=? a * b) && (a * b <=? INT_MAX) then Some (a * b) else None.

(** The array [msr_id[]] of [main] and [ARRAY_SIZE(msr_id)]. *)
Definition main_msr_id : list Z :=
  [ MSR_IA32_SPEC_CTRL; MSR_IA32_TSX_CTRL; MSR_TSX_FORCE_ABORT;
    MSR_IA32_MCU_OPT_CTRL; MSR_AMD64_LS_CFG; MSR_AMD64_DE_CFG ].

Definition num_msrs : Z := Z.of_nat (length main_msr_id).

(** Everything the system answers during one run of [main]. *)
Record host : Type :=
  { getuid : Z;
    sched_getaffinity : Z;
    CPU_ISSET : Z -> bool;          (* membership in [available_cpus] *)
    get_nprocs_conf : Z;
    calloc_ok : bool;               (* [calloc] returned a block *)
    msr_val_uninit : Z;             (* the first content of [msr_val] *)
    before : msr_dev;               (* the MSR files before the suspend *)
    power_state : power;
    after : msr_dev }.              (* the MSR files after the resume *)

(** The variables of [main] that the first loop nest changes. *)
Record cache_state : Type :=
  { cs_msrs : block; cs_total_tests : Z; cs_msr_val : Z;
    cs_log : list event }.

(** The variables of [main] that the second loop nest changes. *)
Record check_state : Type :=
  { ck_succeeded : bool; ck_msr_val : Z; ck_log : list event }.

(** *** Reading the log *)

(** The descriptors obtained ([open] and [timerfd_create] returned a
    non-negative value), in order. *)
Fixpoint opened (log : list event) : list Z :=
  match log with
  | [] => []
  | ev_open _ fd :: l => if 0 <=? fd then fd :: opened l else opened l
  | ev_timerfd_create fd :: l => if 0 <=? fd then fd :: opened l else opened l
  | _ :: l => opened l
  end.

(** The descriptors passed to [close], in order. *)
Fixpoint closed (log : list event) : list Z :=
  match log with
  | [] => []
  | ev_close fd :: l => fd :: closed l
  | _ :: l => closed l
  end.

(** Descriptors are used and closed only while they are open, and none is
    left open at the end; [fds] are the descriptors open so far. *)
Fixpoint fd_discipline (fds : list Z) (log : list event) : bool :=
  match log with
  | [] => match fds with [] => true | _ :: _ => false end
  | ev_open _ fd :: l
  | ev_timerfd_create fd :: l =>
      if 0 <=? fd then fd_discipline (fd :: fds) l else fd_discipline fds l
  | ev_timerfd_settime fd _ _ :: l
  | ev_write_mem fd _ :: l
  | ev_pread fd _ _ :: l =>
      existsb (Z.eqb fd) fds && fd_discipline fds l
  | ev_close fd :: l =>
      existsb (Z.eqb fd) fds && fd_discipline (remove Z.eq_dec fd fds) l
  | _ :: l => fd_discipline fds l
  end.

(** The test results reported. *)
Definition is_result (e : event) : bool :=
  match e with
  | ksft_test_result_error _
  | ksft_test_result_fail_read _ _
  | ksft_test_result_fail_value _ _ _ _
  | ksft_test_result_pass _ _ _ => true
  | _ => false
  end.

Definition results (log : list event) : Z :=
  Z.of_nat (length (filter is_result log)).

(** The results reported for one MSR of one CPU. *)
Definition result_for (cpu id : Z) (e : event) : bool :=
  match e with
  | ksft_test_result_fail_read m c
  | ksft_test_result_fail_value c m _ _
  | ksft_test_result_pass c m _ => (c =? cpu) && (m =? id)
  | _ => false
  end.

Definition results_for (cpu id : Z) (log : list event) : Z :=
  Z.of_nat (length (filter (result_for cpu id) log)).

(** The plans announced with [ksft_set_plan], in order. *)
Fixpoint plans (log : list event) : list Z :=
  match log with
  | [] => []
  | ksft_set_plan n :: l => n :: plans l
  | _ :: l => plans l
  end.

(** An MSR can be read in full: its file opens and [pread] returns all
    eight bytes, the value [msr_value]. *)
Definition readable (d : msr_dev) (cpu id : Z) : bool :=
  negb (dev_open d cpu id =? -1)
  && (pr_ret (dev_pread d cpu id) =? sizeof_long_long).

Definition msr_value (d : msr_dev) (cpu id : Z) : Z :=
  pr_data (dev_pread d cpu id).

(** Every count that [pread] returns fits an [int] (it is [-1] or at most
    the eight bytes asked for). *)
Definition counts_fit_int (d : msr_dev) : Prop :=
  forall cpu id, INT_MIN <= pr_ret (dev_pread d cpu id) <= INT_MAX.

Section Host.

(** [ENODEV] of [errno.h], a positive error number, and [SIZE_MAX], the
    largest [size_t], which is no narrower than [int]. *)
Variable ENODEV : Z.
Hypothesis ENODEV_pos : 0 < ENODEV.
Variable SIZE_MAX : Z.
Hypothesis SIZE_MAX_int : INT_MAX <= SIZE_MAX.

(** [int msr_read(int cpu, unsigned int msr_id, unsigned long long
    *msr_val)]: the events, the value returned and the content of
    [*msr_val] afterwards. The count of [pread], a [ssize_t], is stored in
    the [int ret] before it is compared; the buffer holds what [pread]
    itself left there. *)
Definition msr_read (d : msr_dev) (cpu msr_id : Z) (msr_val : Z)
  : list event * Z * Z :=
  let fd := dev_open d cpu msr_id in
  if fd =? -1 then
    ([ev_open (dev_cpu_msr cpu) fd; ev_perror], - ENODEV, msr_val)
  else
    let r := dev_pread d cpu msr_id in
    let ret := to_int (pr_ret r) in
    let msr_val :=
      if pr_ret r =? sizeof_long_long then pr_data r
      else pr_short r msr_val in
    ([ev_open (dev_cpu_msr cpu) fd; ev_pread fd msr_id (pr_ret r);
      ev_close fd],
     (if negb (ret =? sizeof_long_long) then 1 else 0),
     msr_val).

(** The conversion of an [int] to [size_t]. *)
Definition to_size_t (x : Z) : Z := x mod (SIZE_MAX + 1).

(** [calloc(sizeof(struct msr_cache), nmemb)] when it succeeds. *)
Definition calloc (nmemb : Z) : block :=
  {| blk_len := nmemb; blk_at := fun _ => zeroed |}.

Variable s : host.

(** The first inner loop,
    [for (i = 0; i < num_msrs; i++, msr_idx++)], over the elements
    [msr_id[i]] that are still to come. *)
Fixpoint cache_msrs (cpu : Z) (ids : list Z) (msr_idx : Z)
  (st : cache_state) : option cache_state :=
  match ids with
  | [] => Some st
  | id :: ids' =>
      let '(log, ret, msr_val) := msr_read (before s) cpu id (cs_msr_val st) in
      if ret =? 0 then
        match store (cs_msrs st) msr_idx
                {| msr_id := id; msr_val := msr_val; valid := true |} with
        | None => None
        | Some msrs =>
            cache_msrs cpu ids' (msr_idx + 1)
              {| cs_msrs := msrs;
                 cs_total_tests := cs_total_tests st + 1;
                 cs_msr_val := msr_val;
                 cs_log := cs_log st ++ log |}
        end
      else
        cache_msrs cpu ids' (msr_idx + 1)
          {| cs_msrs := cs_msrs st;
             cs_total_tests := cs_total_tests st;
             cs_msr_val := msr_val;
             cs_log := cs_log st ++ log |}
  end.

(** The first outer loop, [for (cpu = 0; cpu < max_cpus; cpu++)], with
    [n] rounds left. *)
Fixpoint cache_cpus (n : nat) (cpu : Z) (st : cache_state)
  : option cache_state :=
  match n with
  | O => Some st
  | S n' =>
      if negb (CPU_ISSET s cpu) then cache_cpus n' (cpu + 1) st
      else
        match int_mul cpu num_msrs with
        | None => None
        | Some msr_idx =>
            match cache_msrs cpu main_msr_id msr_idx st with
            | None => None
            | Some st' => cache_cpus n' (cpu + 1) st'
            end
        end
  end.

(** The second inner loop. *)
Fixpoint check_msrs (msrs : block) (cpu : Z) (ids : list Z) (msr_idx : Z)
  (st : check_state) : option check_state :=
  match ids with
  | [] => Some st
  | id :: ids' =>
      match load msrs msr_idx with
      | None => None
      | Some e =>
          if negb (valid e) then check_msrs msrs cpu ids' (msr_idx + 1) st
          else
            let '(log, ret, msr_val) :=
              msr_read (after s) cpu id (ck_msr_val st) in
            if negb (ret =? 0) then
              check_msrs msrs cpu ids' (msr_idx + 1)
                {| ck_succeeded := false;
                   ck_msr_val := msr_val;
                   ck_log := ck_log st ++ log
                             ++ [ksft_test_result_fail_read id cpu] |}
            else if negb (MsrRestore.msr_val e =? msr_val) then
              check_msrs msrs cpu ids' (msr_idx + 1)
                {| ck_succeeded := false;
                   ck_msr_val := msr_val;
                   ck_log := ck_log st ++ log
                             ++ [ksft_test_result_fail_value cpu id msr_val
                                   (MsrRestore.msr_val e)] |}
            else
              check_msrs msrs cpu ids' (msr_idx + 1)
                {| ck_succeeded := ck_succeeded st;
                   ck_msr_val := msr_val;
                   ck_log := ck_log st ++ log
                             ++ [ksft_test_result_pass cpu id msr_val] |}
      end
  end.

(** The second outer loop. *)
Fixpoint check_cpus (msrs : block) (n : nat) (cpu : Z) (st : check_state)
  : option check_state :=
  match n with
  | O => Some st
  | S n' =>
      if negb (CPU_ISSET s cpu) then check_cpus msrs n' (cpu + 1) st
      else
        match int_mul cpu num_msrs with
        | None => None
        | Some msr_idx =>
            match check_msrs msrs cpu main_msr_id msr_idx st with
            | None => None
            | Some st' => check_cpus msrs n' (cpu + 1) st'
            end
        end
  end.

(** The label [cleanup] of [main]. *)
Definition cleanup (succeeded : bool) (log : list event)
  : list event * exit :=
  (log ++ [ev_free], if succeeded then ksft_exit_pass else ksft_exit_fail).

(** [int main(void)]. *)
Definition main : option (list event * exit) :=
  let log := [ksft_print_header] in
  if negb (getuid s =? 0) then
    Some (log, ksft_exit_fail_msg rerun_as_root)
  else
    let err := sched_getaffinity s in
    if err <? 0 then Some (log, ksft_exit_fail_msg sched_getaffinity_failed)
    else
      let max_cpus := get_nprocs_conf s in
      match int_mul max_cpus num_msrs with
      | None => None
      | Some nmemb =>
          if negb (calloc_ok s) then
            Some (log, ksft_exit_fail_msg memory_allocation_failed)
          else
            let msrs := calloc (to_size_t nmemb) in
            match cache_cpus (Z.to_nat max_cpus) 0
                    {| cs_msrs := msrs; cs_total_tests := 0;
                       cs_msr_val := msr_val_uninit s; cs_log := log |} with
            | None => None
            | Some st =>
                let log := cs_log st ++ [ksft_set_plan (cs_total_tests st)] in
                let '(slog, sret) := suspend (power_state s) in
                let log := log ++ slog in
                if negb (sret =? 0) then Some (cleanup false log)
                else
                  match check_cpus (cs_msrs st) (Z.to_nat max_cpus) 0
                          {| ck_succeeded := true;
                             ck_msr_val := cs_msr_val st;
                             ck_log := log |} with
                  | None => None
                  | Some ck => Some (cleanup (ck_succeeded ck) (ck_log ck))
                  end
            end
      end.

(** *** What the two loop nests compute *)

(** The element of [msrs] for one CPU and MSR after the first loop nest,
    from what was there before. *)
Definition cache_entry (cpu id : Z) (old : msr_cache) : msr_cache :=
  if readable (before s) cpu id then
    {| msr_id := id; msr_val := msr_value (before s) cpu id; valid := true |}
  else old.

(** An MSR that was read before the suspend reads the same after the
    resume. *)
Definition restored (cpu id : Z) : bool :=
  if readable (before s) cpu id then
    readable (after s) cpu id
    && (msr_value (before s) cpu id =? msr_value (after s) cpu id)
  else true.

Definition count (p : Z -> bool) (ids : list Z) : Z :=
  Z.of_nat (length (filter p ids)).

(** The number of MSRs read in full before the suspend on the available
    CPUs among [cpu], ..., [cpu + n - 1]. *)
Fixpoint planned (n : nat) (cpu : Z) : Z :=
  match n with
  | O => 0
  | S n' =>
      (if CPU_ISSET s cpu
       then count (readable (before s) cpu) main_msr_id else 0)
      + planned n' (cpu + 1)
  end.

Fixpoint all_restored (n : nat) (cpu : Z) : bool :=
  match n with
  | O => true
  | S n' =>
      (if CPU_ISSET s cpu
       then forallb (restored cpu) main_msr_id else true)
      && all_restored n' (cpu + 1)
  end.

(** The events of reading MSR files, of CPUs that satisfy [P] only. *)
Definition msr_io (P : Z -> Prop) (e : event) : Prop :=
  match e with
  | ev_open (dev_cpu_msr c) _ => P c
  | ev_perror | ev_pread _ _ _ | ev_close _ => True
  | _ => False
  end.

(** The events of the second loop nest: MSR reads and results. *)
Definition check_io (P : Z -> Prop) (e : event) : Prop :=
  match e with
  | ksft_test_result_fail_read _ c
  | ksft_test_result_fail_value c _ _ _
  | ksft_test_result_pass c _ _ => P c
  | _ => msr_io P e
  end.

(** The CPUs that [main] works on. *)
Definition on_cpu (c : Z) : Prop :=
  0 <= c < get_nprocs_conf s /\ CPU_ISSET s c = true.

(** ** [suspend] *)

(** X10: [suspend] returns [0] exactly when all four calls succeed: both
    descriptors are obtained, the alarm is armed and all three bytes of
    "mem" are written; any other run returns a negative value. *)
Theorem suspend_ret (h : power) :
  (snd (suspend h) = 0 <->
   0 <= open_state_ret h /\ 0 <= timerfd_create_ret h /\
   0 <= timerfd_settime_ret h /\ write_ret h = 3) /\
  (snd (suspend h) <> 0 -> snd (suspend h) < 0).
Proof.
  unfold suspend, cleanup_timer, cleanup_power_state, suspend_exit, strlen_mem.
  destruct (Z.ltb_spec (open_state_ret h) 0);
    [simpl; lia |].
  destruct (Z.ltb_spec (timerfd_create_ret h) 0);
    [simpl; lia |].
  destruct (Z.ltb_spec (timerfd_settime_ret h) 0);
    [simpl; lia |].
  destruct (Z.eqb_spec (write_ret h) 3); simpl; lia.
Qed.

(** X11: on every path [suspend] closes exactly the descriptors it obtained,
    each once, the last obtained first: none leaks and none that was not
    obtained is closed. *)
Theorem suspend_closes_what_it_opened (h : power) :
  closed (fst (suspend h)) = rev (opened (fst (suspend h))).
Proof.
  unfold suspend, cleanup_timer, cleanup_power_state, suspend_exit.
  destruct (Z.ltb_spec (open_state_ret h) 0);
    [| destruct (Z.ltb_spec (timerfd_create_ret h) 0);
       [| destruct (Z.ltb_spec (timerfd_settime_ret h) 0);
          [| destruct (negb (write_ret h =? strlen_mem))]]];
    simpl;
    repeat match goal with
           | |- context [0 <=? ?x] => destruct (Z.leb_spec 0 x); try lia
           end;
    reflexivity.
Qed.


(** ** [msr_read] *)

Lemma to_int_small x : INT_MIN <= x <= INT_MAX -> to_int x = x.
Proof.
  unfold to_int, INT_MIN, INT_MAX. intros Hx.
  rewrite Z.mod_small by lia. lia.
Qed.

Lemma to_int_range x : INT_MIN <= to_int x <= INT_MAX.
Proof.
  unfold to_int, INT_MIN, INT_MAX.
  pose proof (Z.mod_pos_bound (x - - 2 ^ 31) (2 ^ 32)). lia.
Qed.

Lemma msr_read_ret d cpu id buf :
  INT_MIN <= pr_ret (dev_pread d cpu id) <= INT_MAX ->
  (snd (fst (msr_read d cpu id buf)) =? 0) = readable d cpu id.
Proof.
  intros Hfit. unfold msr_read, readable. rewrite (to_int_small _ Hfit).
  destruct (Z.eqb_spec (dev_open d cpu id) (-1)); simpl.
  - destruct (Z.eqb_spec (- ENODEV) 0); [lia | reflexivity].
  - now destruct (pr_ret (dev_pread d cpu id) =? sizeof_long_long).
Qed.

Lemma msr_read_val d cpu id buf :
  readable d cpu id = true ->
  snd (msr_read d cpu id buf) = msr_value d cpu id.
Proof.
  unfold msr_read, readable, msr_value.
  destruct (Z.eqb_spec (dev_open d cpu id) (-1)); simpl; [discriminate |].
  now intros ->.
Qed.

(** X13: [msr_read] returns [0] exactly when the MSR file opens and the
    count of [pread], narrowed to [int], is eight; for a count that fits an
    [int] that is when [pread] returns eight, and after a count of eight
    [*msr_val] holds the bytes read. It returns [-ENODEV] when the file
    does not open, leaving [*msr_val] as it was, and [1] when the narrowed
    count is not eight. *)
Theorem msr_read_result d cpu id buf :
  (snd (fst (msr_read d cpu id buf)) = 0 <->
   dev_open d cpu id <> -1 /\ to_int (pr_ret (dev_pread d cpu id)) = 8) /\
  (INT_MIN <= pr_ret (dev_pread d cpu id) <= INT_MAX ->
   (snd (fst (msr_read d cpu id buf)) = 0 <->
    dev_open d cpu id <> -1 /\ pr_ret (dev_pread d cpu id) = 8)) /\
  (dev_open d cpu id <> -1 -> pr_ret (dev_pread d cpu id) = 8 ->
   snd (fst (msr_read d cpu id buf)) = 0 /\
   snd (msr_read d cpu id buf) = pr_data (dev_pread d cpu id)) /\
  (dev_open d cpu id = -1 ->
   snd (fst (msr_read d cpu id buf)) = - ENODEV /\
   snd (msr_read d cpu id buf) = buf) /\
  (dev_open d cpu id <> -1 ->
   to_int (pr_ret (dev_pread d cpu id)) <> 8 ->
   snd (fst (msr_read d cpu id buf)) = 1).
Proof.
  assert (H1 : snd (fst (msr_read d cpu id buf)) = 0 <->
               dev_open d cpu id <> -1 /\
               to_int (pr_ret (dev_pread d cpu id)) = 8).
  { unfold msr_read, sizeof_long_long.
    destruct (Z.eqb_spec (dev_open d cpu id) (-1));
      destruct (Z.eqb_spec (to_int (pr_ret (dev_pread d cpu id))) 8);
      simpl; split; intros; try lia; tauto. }
  split; [exact H1 |].
  split; [intros Hfit; now rewrite H1, (to_int_small _ Hfit) |].
  unfold msr_read, sizeof_long_long.
  destruct (Z.eqb_spec (dev_open d cpu id) (-1)) as [E | N];
    destruct (Z.eqb_spec (to_int (pr_ret (dev_pread d cpu id))) 8)
      as [E8 | N8];
    destruct (Z.eqb_spec (pr_ret (dev_pread d cpu id)) 8) as [R8 | R8];
    simpl; repeat split; intros; try lia; try tauto; try reflexivity;
    try (rewrite R8 in N8; exfalso; apply N8; reflexivity).
Qed.

(** X14: unless [open] returns a negative value other than [-1],
    [msr_read] keeps to the descriptor discipline: it reads only from the
    descriptor it has open, closes it after the read and leaves nothing
    open; when [open] fails it neither reads nor closes. *)
Theorem msr_read_closes_what_it_opened d cpu id buf :
  -1 <= dev_open d cpu id ->
  fd_discipline [] (fst (fst (msr_read d cpu id buf))) = true /\
  closed (fst (fst (msr_read d cpu id buf))) =
  opened (fst (fst (msr_read d cpu id buf))) /\
  (dev_open d cpu id = -1 ->
   forall e, In e (fst (fst (msr_read d cpu id buf))) ->
             match e with
             | ev_pread _ _ _ | ev_close _ => False
             | _ => True
             end).
Proof.
  intros Hfd. unfold msr_read.
  destruct (Z.eqb_spec (dev_open d cpu id) (-1)) as [E | N]; simpl.
  - rewrite E. simpl. repeat split.
    intros _ e [<- | [<- | []]]; exact I.
  - destruct (Z.leb_spec 0 (dev_open d cpu id)); [| lia].
    rewrite Z.eqb_refl. simpl.
    destruct (Z.eq_dec (dev_open d cpu id) (dev_open d cpu id));
      [| contradiction].
    repeat split. intros E. contradiction.
Qed.

(** ** The loops of [main] *)

Lemma num_msrs_6 : num_msrs = 6.
Proof. reflexivity. Qed.

Lemma results_app l1 l2 : results (l1 ++ l2) = results l1 + results l2.
Proof.
  unfold results. rewrite filter_app, length_app. lia.
Qed.

Lemma plans_app l1 l2 : plans (l1 ++ l2) = plans l1 ++ plans l2.
Proof.
  induction l1 as [| e l1 IH]; simpl; [reflexivity |].
  destruct e; simpl; now rewrite ?IH.
Qed.

Lemma msr_io_impl (P Q : Z -> Prop) l :
  (forall c, P c -> Q c) -> Forall (msr_io P) l -> Forall (msr_io Q) l.
Proof.
  intros HPQ. apply Forall_impl. intros e. destruct e; simpl; auto.
  destruct f; auto.
Qed.

Lemma check_io_impl (P Q : Z -> Prop) l :
  (forall c, P c -> Q c) -> Forall (check_io P) l -> Forall (check_io Q) l.
Proof.
  intros HPQ. apply Forall_impl. intros e. destruct e; simpl; auto.
  destruct f; auto.
Qed.

Lemma msr_io_check_io (P : Z -> Prop) l :
  Forall (msr_io P) l -> Forall (check_io P) l.
Proof.
  apply Forall_impl. intros e. destruct e; simpl; tauto.
Qed.

Lemma msr_io_results P l : Forall (msr_io P) l -> results l = 0.
Proof.
  induction 1 as [| e l He _ IH]; [reflexivity |].
  change (e :: l) with ([e] ++ l). rewrite results_app, IH.
  destruct e; simpl in He; try contradiction; reflexivity.
Qed.

Lemma check_io_plans P l : Forall (check_io P) l -> plans l = [].
Proof.
  induction 1 as [| e l He _ IH]; [reflexivity |].
  destruct e; simpl in He; try contradiction; simpl; exact IH.
Qed.

Lemma msr_read_log d cpu id buf :
  Forall (msr_io (fun c => c = cpu)) (fst (fst (msr_read d cpu id buf))).
Proof.
  unfold msr_read. destruct (dev_open d cpu id =? -1);
    repeat constructor.
Qed.

Lemma count_cons p id ids :
  count p (id :: ids) = (if p id then 1 else 0) + count p ids.
Proof.
  unfold count. simpl. destruct (p id); simpl length; lia.
Qed.

Lemma results_for_app c id l1 l2 :
  results_for c id (l1 ++ l2) = results_for c id l1 + results_for c id l2.
Proof.
  unfold results_for. rewrite filter_app, length_app. lia.
Qed.

Lemma results_for_one c id e :
  results_for c id [e] = if result_for c id e then 1 else 0.
Proof. unfold results_for. simpl. now destruct (result_for c id e). Qed.

Lemma msr_io_results_for P c id l :
  Forall (msr_io P) l -> results_for c id l = 0.
Proof.
  induction 1 as [| e l He _ IH]; [reflexivity |].
  change (e :: l) with ([e] ++ l). rewrite results_for_app, IH.
  destruct e; simpl in He; try contradiction; reflexivity.
Qed.

(** One more MSR at the head of a row: the result it gets, if it was
    stored, is counted for that MSR of that CPU and for no other. *)
Lemma results_for_head c' id' cpu id ids :
  readable (before s) cpu id = true ->
  (if (cpu =? c') && (id =? id') then 1 else 0)
  + (if (c' =? cpu) && readable (before s) cpu id'
     then count (Z.eqb id') ids else 0) =
  if (c' =? cpu) && readable (before s) cpu id'
  then count (Z.eqb id') (id :: ids) else 0.
Proof.
  intros Eb. rewrite count_cons.
  destruct (Z.eqb_spec cpu c'), (Z.eqb_spec id id'),
    (Z.eqb_spec c' cpu), (Z.eqb_spec id' id); subst; try congruence;
    simpl; rewrite ?Eb; try lia;
    destruct (readable (before s) _ _); lia.
Qed.

Lemma results_for_skip c' id' cpu id ids :
  readable (before s) cpu id = false ->
  (if (c' =? cpu) && readable (before s) cpu id'
   then count (Z.eqb id') ids else 0) =
  if (c' =? cpu) && readable (before s) cpu id'
  then count (Z.eqb id') (id :: ids) else 0.
Proof.
  intros Eb. rewrite count_cons.
  destruct (Z.eqb_spec c' cpu), (Z.eqb_spec id' id); subst;
    simpl; rewrite ?Eb; try lia;
    destruct (readable (before s) _ _); lia.
Qed.

(** *** Runs in which the counts of [pread] fit an [int] *)

Section CountsFit.

Hypothesis before_fits : counts_fit_int (before s).
Hypothesis after_fits : counts_fit_int (after s).

(** The first inner loop fills the elements [msr_idx], [msr_idx + 1], ...
    of the block, one for each MSR, and stays inside the block. *)
Lemma cache_msrs_spec cpu ids :
  forall msr_idx st,
    0 <= msr_idx ->
    msr_idx + Z.of_nat (length ids) <= blk_len (cs_msrs st) ->
    exists st' l,
      cache_msrs cpu ids msr_idx st = Some st' /\
      blk_len (cs_msrs st') = blk_len (cs_msrs st) /\
      (forall j, j < msr_idx \/ msr_idx + Z.of_nat (length ids) <= j ->
                 blk_at (cs_msrs st') j = blk_at (cs_msrs st) j) /\
      (forall k id, nth_error ids k = Some id ->
                    blk_at (cs_msrs st') (msr_idx + Z.of_nat k) =
                    cache_entry cpu id
                      (blk_at (cs_msrs st) (msr_idx + Z.of_nat k))) /\
      cs_total_tests st' =
      cs_total_tests st + count (readable (before s) cpu) ids /\
      cs_log st' = cs_log st ++ l /\
      Forall (msr_io (fun c => c = cpu)) l.
Proof.
  induction ids as [| id ids IH]; intros msr_idx st Hidx Hlen.
  - exists st, []. simpl. rewrite app_nil_r.
    repeat split; auto; try (unfold count; simpl; lia).
    intros [| k] id Hk; discriminate.
  - simpl length in Hlen |- *. rewrite Nat2Z.inj_succ in Hlen |- *.
    simpl cache_msrs.
    pose proof (msr_read_ret (before s) cpu id (cs_msr_val st)
                  (before_fits cpu id)) as Hret.
    pose proof (msr_read_val (before s) cpu id (cs_msr_val st)) as Hval.
    pose proof (msr_read_log (before s) cpu id (cs_msr_val st)) as Hlog.
    destruct (msr_read (before s) cpu id (cs_msr_val st)) as [[log ret] v].
    simpl in Hret, Hval, Hlog. rewrite Hret, count_cons.
    destruct (readable (before s) cpu id) eqn:Er.
    + unfold store.
      destruct (Z.leb_spec 0 msr_idx); [| lia].
      destruct (Z.ltb_spec msr_idx (blk_len (cs_msrs st))); [| lia].
      simpl andb. cbv iota.
      match goal with
      | |- context [cache_msrs cpu ids (msr_idx + 1) ?st1] =>
          destruct (IH (msr_idx + 1) st1) as
            (st' & l & Hrun & Hl & Hout & Hin & Htot & Hlg & Hio);
          [lia | simpl; lia |]
      end.
      simpl in Hl, Hout, Hin, Htot, Hlg.
      exists st', (log ++ l). rewrite Hrun, Hl, Htot, Hlg, <- app_assoc.
      repeat split; auto; try lia.
      * intros j Hj. rewrite Hout by lia.
        destruct (Z.eqb_spec j msr_idx); [lia | reflexivity].
      * intros [| k] id' Hk.
        -- injection Hk as <-. simpl Z.of_nat. rewrite Z.add_0_r.
           rewrite Hout by lia. rewrite Z.eqb_refl.
           unfold cache_entry. rewrite Er, (Hval eq_refl). reflexivity.
        -- simpl nth_error in Hk. rewrite Nat2Z.inj_succ.
           replace (msr_idx + Z.succ (Z.of_nat k))
             with (msr_idx + 1 + Z.of_nat k) by lia.
           rewrite (Hin k id' Hk).
           destruct (Z.eqb_spec (msr_idx + 1 + Z.of_nat k) msr_idx);
             [lia | reflexivity].
      * apply Forall_app; split; assumption.
    + match goal with
      | |- context [cache_msrs cpu ids (msr_idx + 1) ?st1] =>
          destruct (IH (msr_idx + 1) st1) as
            (st' & l & Hrun & Hl & Hout & Hin & Htot & Hlg & Hio);
          [lia | simpl; lia |]
      end.
      simpl in Hl, Hout, Hin, Htot, Hlg.
      exists st', (log ++ l). rewrite Hrun, Hl, Htot, Hlg, <- app_assoc.
      repeat split; auto; try lia.
      * intros j Hj. apply Hout. lia.
      * intros [| k] id' Hk.
        -- injection Hk as <-. simpl Z.of_nat. rewrite Z.add_0_r.
           rewrite Hout by lia. unfold cache_entry. now rewrite Er.
        -- simpl nth_error in Hk. rewrite Nat2Z.inj_succ.
           replace (msr_idx + Z.succ (Z.of_nat k))
             with (msr_idx + 1 + Z.of_nat k) by lia.
           apply (Hin k id' Hk).
      * apply Forall_app; split; assumption.
Qed.

Lemma int_mul_in_range a b :
  INT_MIN <= a * b <= INT_MAX -> int_mul a b = Some (a * b).
Proof.
  intros H. unfold int_mul.
  destruct (Z.leb_spec INT_MIN (a * b)); [| lia].
  destruct (Z.leb_spec (a * b) INT_MAX); [reflexivity | lia].
Qed.

Lemma nth_error_main_msr_id k id :
  nth_error main_msr_id k = Some id -> 0 <= Z.of_nat k < 6.
Proof.
  intros Hk. assert (Hlt : (k < length main_msr_id)%nat)
    by (apply nth_error_Some; congruence).
  simpl in Hlt. lia.
Qed.

Lemma cache_cpus_S n cpu st :
  cache_cpus (S n) cpu st =
  if negb (CPU_ISSET s cpu) then cache_cpus n (cpu + 1) st
  else
    match int_mul cpu num_msrs with
    | None => None
    | Some msr_idx =>
        match cache_msrs cpu main_msr_id msr_idx st with
        | None => None
        | Some st' => cache_cpus n (cpu + 1) st'
        end
    end.
Proof. reflexivity. Qed.

Lemma planned_S n cpu :
  planned (S n) cpu =
  (if CPU_ISSET s cpu then count (readable (before s) cpu) main_msr_id else 0)
  + planned n (cpu + 1).
Proof. reflexivity. Qed.

(** The first loop nest fills the rows of the available CPUs, counts the
    MSRs it stored and stays inside the block. *)
Lemma cache_cpus_spec n :
  forall cpu st,
    0 <= cpu ->
    (cpu + Z.of_nat n) * num_msrs <= blk_len (cs_msrs st) ->
    (cpu + Z.of_nat n) * num_msrs <= INT_MAX ->
    exists st' l,
      cache_cpus n cpu st = Some st' /\
      blk_len (cs_msrs st') = blk_len (cs_msrs st) /\
      (forall j, j < cpu * num_msrs \/ (cpu + Z.of_nat n) * num_msrs <= j ->
                 blk_at (cs_msrs st') j = blk_at (cs_msrs st) j) /\
      (forall c k id,
          cpu <= c < cpu + Z.of_nat n ->
          nth_error main_msr_id k = Some id ->
          blk_at (cs_msrs st') (c * num_msrs + Z.of_nat k) =
          if CPU_ISSET s c
          then cache_entry c id (blk_at (cs_msrs st) (c * num_msrs + Z.of_nat k))
          else blk_at (cs_msrs st) (c * num_msrs + Z.of_nat k)) /\
      cs_total_tests st' = cs_total_tests st + planned n cpu /\
      cs_log st' = cs_log st ++ l /\
      Forall (msr_io (fun c => cpu <= c < cpu + Z.of_nat n /\
                               CPU_ISSET s c = true)) l.
Proof.
  rewrite num_msrs_6.
  induction n as [| n IH]; intros cpu st Hcpu Hlen Hint.
  - exists st, []. simpl. rewrite app_nil_r.
    repeat split; auto; try lia.
  - rewrite Nat2Z.inj_succ in *. rewrite cache_cpus_S, planned_S.
    destruct (CPU_ISSET s cpu) eqn:Eset; simpl negb; cbv iota.
    + rewrite num_msrs_6, int_mul_in_range by (unfold INT_MIN; lia).
      destruct (cache_msrs_spec cpu main_msr_id (cpu * 6) st)
        as (st1 & l1 & Hrun1 & Hl1 & Hout1 & Hin1 & Htot1 & Hlg1 & Hio1);
        [lia | simpl length; lia |].
      simpl length in Hout1. rewrite Hrun1.
      destruct (IH (cpu + 1) st1)
        as (st' & l & Hrun & Hl & Hout & Hin & Htot & Hlg & Hio);
        [lia | rewrite Hl1; lia | lia |].
      exists st', (l1 ++ l).
      rewrite Hrun, Hl, Hl1, Htot, Htot1, Hlg, Hlg1, <- app_assoc.
      repeat split; auto; try lia.
      * intros j Hj. rewrite Hout by lia. apply Hout1. lia.
      * intros c k id Hc Hk.
        pose proof (nth_error_main_msr_id k id Hk) as Hk6.
        destruct (Z.eq_dec c cpu) as [-> | Hne].
        -- rewrite Eset, Hout by lia. apply (Hin1 k id Hk).
        -- rewrite (Hin c k id) by (trivial; lia).
           now rewrite Hout1 by lia.
      * apply Forall_app; split.
        -- eapply msr_io_impl; [| exact Hio1].
           intros c ->. split; [lia | exact Eset].
        -- eapply msr_io_impl; [| exact Hio]. simpl. intros c [Hc ?].
           split; [lia | assumption].
    + destruct (IH (cpu + 1) st)
        as (st' & l & Hrun & Hl & Hout & Hin & Htot & Hlg & Hio);
        [lia | lia | lia |].
      exists st', l. rewrite Hrun, Hl, Htot, Hlg.
      repeat split; auto; try lia.
      * intros j Hj. apply Hout. lia.
      * intros c k id Hc Hk.
        destruct (Z.eq_dec c cpu) as [-> | Hne].
        -- rewrite Eset. apply Hout.
           pose proof (nth_error_main_msr_id k id Hk). lia.
        -- apply (Hin c k id); [lia | assumption].
      * eapply msr_io_impl; [| exact Hio]. simpl. intros c [Hc ?].
        split; [lia | assumption].
Qed.

Lemma results_one e : results [e] = if is_result e then 1 else 0.
Proof. unfold results. simpl. now destruct (is_result e). Qed.

(** The second inner loop, on a row that the first loop nest filled:
    one result for each MSR that was stored, and [succeeded] stays [true]
    only if each of them reads the same again. *)
Lemma check_msrs_spec msrs cpu ids :
  forall msr_idx st,
    (forall k id, nth_error ids k = Some id ->
                  load msrs (msr_idx + Z.of_nat k) =
                  Some (cache_entry cpu id zeroed)) ->
    exists st' l,
      check_msrs msrs cpu ids msr_idx st = Some st' /\
      ck_succeeded st' = ck_succeeded st && forallb (restored cpu) ids /\
      ck_log st' = ck_log st ++ l /\
      results l = count (readable (before s) cpu) ids /\
      Forall (check_io (fun c => c = cpu)) l /\
      (forall c' id',
          results_for c' id' l =
          if (c' =? cpu) && readable (before s) cpu id'
          then count (Z.eqb id') ids else 0).
Proof.
  induction ids as [| id ids IH]; intros msr_idx st Hload.
  - exists st, []. simpl. rewrite app_nil_r, andb_true_r.
    repeat split; auto.
    intros c' id'. now destruct ((c' =? cpu) && readable (before s) cpu id').
  - assert (Hnext : forall st1, exists st' l,
               check_msrs msrs cpu ids (msr_idx + 1) st1 = Some st' /\
               ck_succeeded st' =
               ck_succeeded st1 && forallb (restored cpu) ids /\
               ck_log st' = ck_log st1 ++ l /\
               results l = count (readable (before s) cpu) ids /\
               Forall (check_io (fun c => c = cpu)) l /\
               (forall c' id',
                   results_for c' id' l =
                   if (c' =? cpu) && readable (before s) cpu id'
                   then count (Z.eqb id') ids else 0)).
    { intros st1. apply IH. intros k id' Hk.
      replace (msr_idx + 1 + Z.of_nat k) with (msr_idx + Z.of_nat (S k))
        by lia.
      now apply Hload. }
    pose proof (Hload 0%nat id eq_refl) as H0.
    simpl Z.of_nat in H0. rewrite Z.add_0_r in H0.
    simpl check_msrs. rewrite H0. rewrite count_cons. simpl forallb.
    unfold restored at 1. unfold cache_entry.
    destruct (readable (before s) cpu id) eqn:Eb; simpl valid; simpl negb;
      cbv iota.
    + pose proof (msr_read_ret (after s) cpu id (ck_msr_val st)
                    (after_fits cpu id)) as Hret.
      pose proof (msr_read_val (after s) cpu id (ck_msr_val st)) as Hval.
      pose proof (msr_read_log (after s) cpu id (ck_msr_val st)) as Hlog.
      destruct (msr_read (after s) cpu id (ck_msr_val st)) as [[log ret] v].
      simpl in Hret, Hval, Hlog. rewrite Hret.
      apply msr_io_check_io in Hlog as Hlog'.
      pose proof (msr_io_results _ _ Hlog) as Hres.
      assert (Hone : forall res l c' id',
                 result_for c' id' res = (cpu =? c') && (id =? id') ->
                 results_for c' id' l =
                 (if (c' =? cpu) && readable (before s) cpu id'
                  then count (Z.eqb id') ids else 0) ->
                 results_for c' id' (log ++ [res] ++ l) =
                 if (c' =? cpu) && readable (before s) cpu id'
                 then count (Z.eqb id') (id :: ids) else 0).
      { intros res l c' id' Hres1 Hl.
        rewrite !results_for_app, (msr_io_results_for _ _ _ _ Hlog).
        rewrite results_for_one, Hres1, Hl. simpl.
        now apply results_for_head. }
      destruct (readable (after s) cpu id) eqn:Ea; simpl negb; cbv iota.
      * rewrite (Hval eq_refl). simpl msr_val.
        destruct (msr_value (before s) cpu id =? msr_value (after s) cpu id);
          simpl negb; cbv iota;
          match goal with
          | |- context [check_msrs msrs cpu ids (msr_idx + 1) ?st1] =>
              destruct (Hnext st1)
                as (st' & l & Hrun & Hs & Hlg & Hr & Hio & Hrf)
          end;
          simpl in Hs, Hlg.
        -- exists st',
             (log ++ [ksft_test_result_pass cpu id
                        (msr_value (after s) cpu id)] ++ l).
           rewrite Hrun, Hs, Hlg, <- ?app_assoc.
           split; [reflexivity |]. split; [reflexivity |].
           split; [reflexivity |]. split; [| split].
           ++ rewrite !results_app, Hres, Hr, results_one; simpl; lia.
           ++ repeat (apply Forall_app; split); auto; repeat constructor.
           ++ intros c' id'. apply Hone; [reflexivity | apply Hrf].
        -- exists st',
             (log ++ [ksft_test_result_fail_value cpu id
                        (msr_value (after s) cpu id)
                        (msr_value (before s) cpu id)] ++ l).
           rewrite Hrun, Hs, Hlg, <- ?app_assoc.
           split; [reflexivity |].
           split; [simpl; now rewrite andb_false_r |].
           split; [reflexivity |]. split; [| split].
           ++ rewrite !results_app, Hres, Hr, results_one; simpl; lia.
           ++ repeat (apply Forall_app; split); auto; repeat constructor.
           ++ intros c' id'. apply Hone; [reflexivity | apply Hrf].
      * match goal with
        | |- context [check_msrs msrs cpu ids (msr_idx + 1) ?st1] =>
            destruct (Hnext st1)
              as (st' & l & Hrun & Hs & Hlg & Hr & Hio & Hrf)
        end.
        simpl in Hs, Hlg.
        exists st', (log ++ [ksft_test_result_fail_read id cpu] ++ l).
        rewrite Hrun, Hs, Hlg, <- ?app_assoc.
        split; [reflexivity |].
        split; [now rewrite andb_false_r |].
        split; [reflexivity |]. split; [| split].
        -- rewrite !results_app, Hres, Hr, results_one; simpl; lia.
        -- repeat (apply Forall_app; split); auto; repeat constructor.
        -- intros c' id'. apply Hone; [reflexivity | apply Hrf].
    + destruct (Hnext st) as (st' & l & Hrun & Hs & Hlg & Hr & Hio & Hrf).
      exists st', l. rewrite Hrun, Hs, Hlg.
      split; [reflexivity |]. split; [reflexivity |].
      split; [reflexivity |]. split; [lia |]. split; [exact Hio |].
      intros c' id'. rewrite Hrf. now apply results_for_skip.
Qed.

Lemma check_cpus_S msrs n cpu st :
  check_cpus msrs (S n) cpu st =
  if negb (CPU_ISSET s cpu) then check_cpus msrs n (cpu + 1) st
  else
    match int_mul cpu num_msrs with
    | None => None
    | Some msr_idx =>
        match check_msrs msrs cpu main_msr_id msr_idx st with
        | None => None
        | Some st' => check_cpus msrs n (cpu + 1) st'
        end
    end.
Proof. reflexivity. Qed.

Lemma all_restored_S n cpu :
  all_restored (S n) cpu =
  (if CPU_ISSET s cpu then forallb (restored cpu) main_msr_id else true)
  && all_restored n (cpu + 1).
Proof. reflexivity. Qed.

(** The second loop nest, on a block that the first one filled. *)
Lemma check_cpus_spec msrs n :
  forall cpu st,
    0 <= cpu ->
    (cpu + Z.of_nat n) * num_msrs <= INT_MAX ->
    (forall c k id,
        cpu <= c < cpu + Z.of_nat n -> CPU_ISSET s c = true ->
        nth_error main_msr_id k = Some id ->
        load msrs (c * num_msrs + Z.of_nat k) =
        Some (cache_entry c id zeroed)) ->
    exists st' l,
      check_cpus msrs n cpu st = Some st' /\
      ck_succeeded st' = ck_succeeded st && all_restored n cpu /\
      ck_log st' = ck_log st ++ l /\
      results l = planned n cpu /\
      Forall (check_io (fun c => cpu <= c < cpu + Z.of_nat n /\
                                 CPU_ISSET s c = true)) l /\
      (forall c' id',
          results_for c' id' l =
          if (cpu <=? c') && (c' <? cpu + Z.of_nat n)
             && CPU_ISSET s c' && readable (before s) c' id'
          then count (Z.eqb id') main_msr_id else 0).
Proof.
  induction n as [| n IH]; intros cpu st Hcpu Hint Hload.
  - exists st, []. simpl. rewrite app_nil_r, andb_true_r.
    repeat split; auto.
    intros c' id'. rewrite Z.add_0_r.
    destruct (Z.leb_spec cpu c'), (Z.ltb_spec c' cpu); try lia; reflexivity.
  - rewrite Nat2Z.inj_succ in *.
    rewrite check_cpus_S, all_restored_S, planned_S.
    assert (Hnext : forall st1, exists st' l,
               check_cpus msrs n (cpu + 1) st1 = Some st' /\
               ck_succeeded st' =
               ck_succeeded st1 && all_restored n (cpu + 1) /\
               ck_log st' = ck_log st1 ++ l /\
               results l = planned n (cpu + 1) /\
               Forall (check_io (fun c => cpu + 1 <= c < cpu + 1 + Z.of_nat n
                                          /\ CPU_ISSET s c = true)) l /\
               (forall c' id',
                   results_for c' id' l =
                   if (cpu + 1 <=? c') && (c' <? cpu + 1 + Z.of_nat n)
                      && CPU_ISSET s c' && readable (before s) c' id'
                   then count (Z.eqb id') main_msr_id else 0)).
    { intros st1. apply IH; [lia | lia |].
      intros c k id Hc. apply Hload. lia. }
    destruct (CPU_ISSET s cpu) eqn:Eset; simpl negb; cbv iota.
    + rewrite int_mul_in_range
        by (rewrite num_msrs_6 in *; unfold INT_MIN; lia).
      destruct (check_msrs_spec msrs cpu main_msr_id (cpu * num_msrs) st)
        as (st1 & l1 & Hrun1 & Hs1 & Hlg1 & Hr1 & Hio1 & Hrf1).
      { intros k id Hk. apply Hload; trivial. lia. }
      rewrite Hrun1.
      destruct (Hnext st1) as (st' & l & Hrun & Hs & Hlg & Hr & Hio & Hrf).
      exists st', (l1 ++ l).
      rewrite Hrun, Hs, Hs1, Hlg, Hlg1, <- app_assoc, results_app, Hr, Hr1.
      split; [reflexivity |]. split; [now rewrite andb_assoc |].
      split; [reflexivity |]. split; [reflexivity |]. split.
      * apply Forall_app; split.
        -- eapply check_io_impl; [| exact Hio1].
           intros c ->. split; [lia | exact Eset].
        -- eapply check_io_impl; [| exact Hio]. simpl. intros c [Hc ?].
           split; [lia | assumption].
      * intros c' id'. rewrite results_for_app, Hrf1, Hrf.
        destruct (Z.eqb_spec c' cpu) as [-> | Hne].
        -- rewrite Eset.
           destruct (Z.leb_spec (cpu + 1) cpu), (Z.leb_spec cpu cpu),
             (Z.ltb_spec cpu (cpu + Z.succ (Z.of_nat n))); try lia.
           simpl. destruct (readable (before s) cpu id'); lia.
        -- destruct (Z.leb_spec (cpu + 1) c'), (Z.leb_spec cpu c'),
             (Z.ltb_spec c' (cpu + 1 + Z.of_nat n)),
             (Z.ltb_spec c' (cpu + Z.succ (Z.of_nat n)));
             try lia; reflexivity.
    + destruct (Hnext st) as (st' & l & Hrun & Hs & Hlg & Hr & Hio & Hrf).
      exists st', l. rewrite Hrun, Hs, Hlg, Hr.
      split; [reflexivity |]. split; [reflexivity |].
      split; [reflexivity |]. split; [reflexivity |]. split.
      * eapply check_io_impl; [| exact Hio]. simpl. intros c [Hc ?].
        split; [lia | assumption].
      * intros c' id'. rewrite Hrf.
        destruct (Z.eqb_spec c' cpu) as [-> | Hne].
        -- rewrite Eset.
           destruct (Z.leb_spec (cpu + 1) cpu); [lia |].
           simpl. now rewrite andb_false_r.
        -- destruct (Z.leb_spec (cpu + 1) c'), (Z.leb_spec cpu c'),
             (Z.ltb_spec c' (cpu + 1 + Z.of_nat n)),
             (Z.ltb_spec c' (cpu + Z.succ (Z.of_nat n)));
             try lia; reflexivity.
Qed.

Lemma all_restored_iff n :
  forall cpu,
    all_restored n cpu = true <->
    (forall c id, cpu <= c < cpu + Z.of_nat n -> CPU_ISSET s c = true ->
                  In id main_msr_id -> restored c id = true).
Proof.
  induction n as [| n IH]; intros cpu.
  - simpl. split; [intros _ c id Hc; lia | reflexivity].
  - rewrite all_restored_S, andb_true_iff, IH, Nat2Z.inj_succ. split.
    + intros [Hhere Hrest] c id Hc Hset Hid.
      destruct (Z.eq_dec c cpu) as [-> | Hne].
      * rewrite Hset in Hhere.
        now apply (proj1 (forallb_forall _ _) Hhere).
      * apply Hrest; trivial. lia.
    + intros Hall. split.
      * destruct (CPU_ISSET s cpu) eqn:Eset; [| reflexivity].
        apply forallb_forall. intros id Hid. apply Hall; trivial. lia.
      * intros c id Hc. apply Hall. lia.
Qed.

(** What [suspend] logs: no plan, no result when it succeeds, and no MSR
    file. *)
Lemma suspend_log (h : power) :
  plans (fst (suspend h)) = [] /\
  (snd (suspend h) = 0 -> results (fst (suspend h)) = 0) /\
  (forall c r, ~ In (ev_open (dev_cpu_msr c) r) (fst (suspend h))).
Proof.
  unfold suspend, cleanup_timer, cleanup_power_state, suspend_exit.
  destruct (Z.ltb_spec (open_state_ret h) 0);
    [| destruct (Z.ltb_spec (timerfd_create_ret h) 0);
       [| destruct (Z.ltb_spec (timerfd_settime_ret h) 0);
          [| destruct (negb (write_ret h =? strlen_mem))]]];
    simpl; (split; [reflexivity | split; [intros; try reflexivity; lia |]]);
    intros c r Hin;
    repeat (destruct Hin as [Hin | Hin]; try discriminate);
    contradiction.
Qed.

Lemma suspend_results_for (h : power) c id :
  results_for c id (fst (suspend h)) = 0.
Proof.
  unfold suspend, cleanup_timer, cleanup_power_state, suspend_exit.
  destruct (open_state_ret h <? 0);
    [| destruct (timerfd_create_ret h <? 0);
       [| destruct (timerfd_settime_ret h <? 0);
          [| destruct (negb (write_ret h =? strlen_mem))]]];
    reflexivity.
Qed.

Lemma count_main_msr_id id :
  count (Z.eqb id) main_msr_id =
  if existsb (Z.eqb id) main_msr_id then 1 else 0.
Proof.
  unfold count, main_msr_id. simpl.
  unfold MSR_IA32_SPEC_CTRL, MSR_IA32_TSX_CTRL, MSR_TSX_FORCE_ABORT,
    MSR_IA32_MCU_OPT_CTRL, MSR_AMD64_LS_CFG, MSR_AMD64_DE_CFG.
  repeat match goal with
         | |- context [id =? ?c] => destruct (Z.eqb_spec id c)
         end; subst; simpl; try reflexivity; discriminate.
Qed.

(** ** [main] *)

Lemma to_size_t_small x : 0 <= x <= INT_MAX -> to_size_t x = x.
Proof. intros Hx. unfold to_size_t. apply Z.mod_small. lia. Qed.

Lemma to_size_t_nonneg x : 0 <= to_size_t x.
Proof.
  unfold to_size_t. apply Z.mod_pos_bound. unfold INT_MAX in *. lia.
Qed.

(** A run of [main] that gets past its three checks, in full. *)
Lemma main_run :
  getuid s = 0 -> 0 <= sched_getaffinity s -> calloc_ok s = true ->
  INT_MIN <= get_nprocs_conf s * num_msrs <= INT_MAX ->
  exists l1,
    Forall (msr_io on_cpu) l1 /\
    if snd (suspend (power_state s)) =? 0 then
      exists l2,
        Forall (check_io on_cpu) l2 /\
        results l2 = planned (Z.to_nat (get_nprocs_conf s)) 0 /\
        (forall c id,
            results_for c id l2 =
            if (0 <=? c) && (c <? 0 + Z.of_nat (Z.to_nat (get_nprocs_conf s)))
               && CPU_ISSET s c && readable (before s) c id
            then count (Z.eqb id) main_msr_id else 0) /\
        main =
        Some
          ([ksft_print_header] ++ l1
           ++ [ksft_set_plan (planned (Z.to_nat (get_nprocs_conf s)) 0)]
           ++ fst (suspend (power_state s)) ++ l2 ++ [ev_free],
           if all_restored (Z.to_nat (get_nprocs_conf s)) 0
           then ksft_exit_pass else ksft_exit_fail)
    else
      main =
      Some
        ([ksft_print_header] ++ l1
         ++ [ksft_set_plan (planned (Z.to_nat (get_nprocs_conf s)) 0)]
         ++ fst (suspend (power_state s)) ++ [ev_free],
         ksft_exit_fail).
Proof.
  intros Huid Haff Hcal Hint. unfold main.
  rewrite Huid, Hcal. simpl negb. cbv iota.
  destruct (Z.ltb_spec (sched_getaffinity s) 0); [lia |].
  rewrite (int_mul_in_range _ _ Hint).
  set (n := Z.to_nat (get_nprocs_conf s)).
  set (msrs := calloc (to_size_t (get_nprocs_conf s * num_msrs))).
  assert (Hn : Z.of_nat n = Z.max 0 (get_nprocs_conf s))
    by (unfold n; lia).
  assert (Hlen : (0 + Z.of_nat n) * num_msrs <= blk_len msrs).
  { unfold msrs. simpl blk_len. rewrite num_msrs_6 in *.
    destruct (Z.le_gt_cases 0 (get_nprocs_conf s)).
    - rewrite to_size_t_small by lia. lia.
    - pose proof (to_size_t_nonneg (get_nprocs_conf s * 6)). lia. }
  assert (Hmax : (0 + Z.of_nat n) * num_msrs <= INT_MAX).
  { rewrite num_msrs_6 in *. unfold INT_MAX in *. lia. }
  match goal with
  | |- context [cache_cpus n 0 ?st0] =>
      destruct (cache_cpus_spec n 0 st0)
        as (st & l1 & Hrun & Hl & Hout & Hin & Htot & Hlg & Hio);
      [lia | exact Hlen | exact Hmax |]
  end.
  simpl in Hl, Hout, Hin, Htot, Hlg. rewrite Hrun.
  assert (Hcpu : forall c, 0 <= c < 0 + Z.of_nat n /\ CPU_ISSET s c = true ->
                           on_cpu c)
    by (intros c [Hc Hset]; split; [lia | exact Hset]).
  exists l1. split; [exact (msr_io_impl _ _ _ Hcpu Hio) |].
  destruct (suspend (power_state s)) as [slog sret]. simpl fst. simpl snd.
  cbv beta iota.
  destruct (Z.eqb_spec sret 0) as [Hs0 | Hs0]; simpl negb; cbv iota.
  - match goal with
    | |- context [check_cpus (cs_msrs st) n 0 ?ck0] =>
        destruct (check_cpus_spec (cs_msrs st) n 0 ck0)
          as (ck & l2 & Hrun2 & Hs2 & Hlg2 & Hr2 & Hio2 & Hrf2);
        [lia | exact Hmax | |]
    end.
    { intros c k id Hc Hset Hk.
      pose proof (nth_error_main_msr_id k id Hk) as Hk6.
      pose proof (Hin c k id Hc Hk) as Hent.
      unfold load. rewrite Hl. subst msrs. simpl blk_len in *.
      rewrite num_msrs_6 in *.
      destruct (Z.leb_spec 0 (c * 6 + Z.of_nat k)); [| lia].
      match goal with
      | |- context [?a <? ?b] => destruct (Z.ltb_spec a b); [| lia]
      end.
      simpl andb. cbv iota. f_equal.
      rewrite Hent. now rewrite Hset. }
    simpl in Hs2, Hlg2. rewrite Hrun2.
    exists l2. split; [exact (check_io_impl _ _ _ Hcpu Hio2) |].
    split; [exact Hr2 |]. split; [exact Hrf2 |].
    unfold cleanup. rewrite Hs2, Hlg2, Hlg, Htot. simpl.
    rewrite <- !app_assoc. reflexivity.
  - unfold cleanup. rewrite Hlg, Htot. simpl.
    rewrite <- !app_assoc. reflexivity.
Qed.

Lemma restored_iff cpu id :
  restored cpu id = true <->
  (readable (before s) cpu id = true ->
   readable (after s) cpu id = true /\
   msr_value (after s) cpu id = msr_value (before s) cpu id).
Proof.
  unfold restored. destruct (readable (before s) cpu id).
  - rewrite andb_true_iff, Z.eqb_eq. split.
    + intros [Ha Hv] _. split; [exact Ha | now symmetry].
    + intros Hall. destruct (Hall eq_refl) as [Ha Hv].
      split; [exact Ha | now symmetry].
  - split; [discriminate | reflexivity].
Qed.

(** A run that ends at all either stopped at one of the three checks,
    having printed the header only, or passed all of them. *)
Lemma main_guards log e :
  main = Some (log, e) ->
  (log = [ksft_print_header] /\
   ((getuid s <> 0 /\ e = ksft_exit_fail_msg rerun_as_root) \/
    (getuid s = 0 /\ sched_getaffinity s < 0 /\
     e = ksft_exit_fail_msg sched_getaffinity_failed) \/
    (getuid s = 0 /\ 0 <= sched_getaffinity s /\ calloc_ok s = false /\
     e = ksft_exit_fail_msg memory_allocation_failed))) \/
  (getuid s = 0 /\ 0 <= sched_getaffinity s /\ calloc_ok s = true /\
   INT_MIN <= get_nprocs_conf s * num_msrs <= INT_MAX).
Proof.
  unfold main.
  destruct (Z.eqb_spec (getuid s) 0) as [Huid | Huid]; simpl negb; cbv iota;
    [| intros [= <- <-]; left; split; [reflexivity | now left]].
  destruct (Z.ltb_spec (sched_getaffinity s) 0) as [Haff | Haff];
    [intros [= <- <-]; left; split; [reflexivity | right; left; auto] |].
  unfold int_mul.
  destruct (Z.leb_spec INT_MIN (get_nprocs_conf s * num_msrs));
    [| discriminate].
  destruct (Z.leb_spec (get_nprocs_conf s * num_msrs) INT_MAX);
    [| discriminate].
  simpl andb. cbv iota.
  destruct (calloc_ok s); simpl negb; cbv iota;
    [| intros [= <- <-]; left; split; [reflexivity | right; right; auto]].
  intros _. right. repeat split; trivial.
Qed.

(** X15: once [main] is past its checks ([uid] 0, an affinity mask, memory, a
    CPU count whose product with the number of MSRs fits an [int]), and
    with [pread] counts that fit an [int], it runs to one of its two final
    exits without stepping outside the array, and it exits with
    [ksft_exit_pass] exactly when [suspend] returned [0] and every MSR
    that could be read on an available CPU before the suspend can be read
    after it with the same value. *)
Theorem main_verdict :
  getuid s = 0 -> 0 <= sched_getaffinity s -> calloc_ok s = true ->
  INT_MIN <= get_nprocs_conf s * num_msrs <= INT_MAX ->
  exists log e,
    main = Some (log, e) /\
    (e = ksft_exit_pass \/ e = ksft_exit_fail) /\
    (e = ksft_exit_pass <->
     snd (suspend (power_state s)) = 0 /\
     forall cpu id,
       0 <= cpu < get_nprocs_conf s -> CPU_ISSET s cpu = true ->
       In id main_msr_id ->
       readable (before s) cpu id = true ->
       readable (after s) cpu id = true /\
       msr_value (after s) cpu id = msr_value (before s) cpu id).
Proof.
  intros Huid Haff Hcal Hint.
  destruct (main_run Huid Haff Hcal Hint) as (l1 & _ & Hrun).
  assert (Hall : all_restored (Z.to_nat (get_nprocs_conf s)) 0 = true <->
                 forall cpu id,
                   0 <= cpu < get_nprocs_conf s -> CPU_ISSET s cpu = true ->
                   In id main_msr_id ->
                   readable (before s) cpu id = true ->
                   readable (after s) cpu id = true /\
                   msr_value (after s) cpu id = msr_value (before s) cpu id).
  { rewrite all_restored_iff. split.
    - intros Hr cpu id Hc Hset Hid. apply restored_iff.
      apply Hr; trivial. lia.
    - intros Hr cpu id Hc Hset Hid. apply restored_iff.
      apply Hr; trivial. lia. }
  destruct (Z.eqb_spec (snd (suspend (power_state s))) 0) as [Hs0 | Hs0].
  - destruct Hrun as (l2 & _ & _ & _ & Hrun).
    destruct (all_restored (Z.to_nat (get_nprocs_conf s)) 0) eqn:Er;
      eexists; eexists; (split; [exact Hrun |]).
    + split; [now left |]. split; [| reflexivity].
      intros _. split; [exact Hs0 | now apply Hall].
    + split; [now right |]. split; [discriminate |].
      intros [_ Hr]. apply Hall in Hr. discriminate.
  - eexists; eexists; (split; [exact Hrun |]).
    split; [now right |]. split; [discriminate |]. intros [Hs _]. contradiction.
Qed.

(** X16: when [suspend] succeeds (and [main] is past its checks, with
    [pread] counts that fit an [int]), [main] announces one plan, the
    number of results it reports is that plan, which is the number of MSRs
    read in full before the suspend on the available CPUs, and it reports
    exactly one result for each of those MSRs and none for any other. *)
Theorem main_reports_its_plan :
  getuid s = 0 -> 0 <= sched_getaffinity s -> calloc_ok s = true ->
  INT_MIN <= get_nprocs_conf s * num_msrs <= INT_MAX ->
  snd (suspend (power_state s)) = 0 ->
  exists log e,
    main = Some (log, e) /\
    plans log = [results log] /\
    results log = planned (Z.to_nat (get_nprocs_conf s)) 0 /\
    (forall cpu id,
        results_for cpu id log =
        if (0 <=? cpu) && (cpu <? get_nprocs_conf s) && CPU_ISSET s cpu
           && existsb (Z.eqb id) main_msr_id
           && readable (before s) cpu id
        then 1 else 0).
Proof.
  intros Huid Haff Hcal Hint Hs0.
  destruct (main_run Huid Haff Hcal Hint) as (l1 & Hio1 & Hrun).
  rewrite Hs0 in Hrun. change (0 =? 0) with true in Hrun. cbv iota in Hrun.
  destruct Hrun as (l2 & Hio2 & Hr2 & Hrf2 & Hrun).
  destruct (suspend_log (power_state s)) as (Hp & Hr & _).
  eexists; eexists; (split; [exact Hrun |]).
  assert (Hres : results
                   ([ksft_print_header] ++ l1
                    ++ [ksft_set_plan
                          (planned (Z.to_nat (get_nprocs_conf s)) 0)]
                    ++ fst (suspend (power_state s)) ++ l2 ++ [ev_free]) =
                 planned (Z.to_nat (get_nprocs_conf s)) 0).
  { rewrite !results_app, (msr_io_results _ _ Hio1), (Hr Hs0), Hr2.
    unfold results. simpl. lia. }
  split; [| split; [exact Hres |]].
  - rewrite Hres, !plans_app.
    rewrite (check_io_plans _ _ (msr_io_check_io _ _ Hio1)).
    rewrite (check_io_plans _ _ Hio2), Hp. reflexivity.
  - intros cpu id.
    rewrite !results_for_app, (msr_io_results_for _ _ _ _ Hio1).
    rewrite suspend_results_for, Hrf2, count_main_msr_id.
    rewrite !results_for_one. cbn [result_for].
    rewrite ?Z.add_0_l, ?Z.add_0_r.
    destruct (Z.leb_spec 0 cpu),
      (Z.ltb_spec cpu (Z.of_nat (Z.to_nat (get_nprocs_conf s)))),
      (Z.ltb_spec cpu (get_nprocs_conf s)); try lia;
      destruct (CPU_ISSET s cpu), (existsb (Z.eqb id) main_msr_id),
        (readable (before s) cpu id); reflexivity.
Qed.

End CountsFit.

(** Case analysis on where in a log an event is. *)
Ltac split_log H :=
  repeat match type of H with
         | In _ (_ ++ _) => apply in_app_or in H; destruct H as [H | H]
         | In _ (_ :: _) => destruct H as [H | H]; [discriminate |]
         | In _ [] => destruct H
         end.

(** What the loops log, whenever they end: MSR reads of the CPU at hand,
    and results for it. *)
Lemma cache_msrs_log cpu ids :
  forall msr_idx st st',
    cache_msrs cpu ids msr_idx st = Some st' ->
    exists l, cs_log st' = cs_log st ++ l /\
              Forall (msr_io (fun c => c = cpu)) l.
Proof.
  induction ids as [| id ids IH]; intros msr_idx st st' Hrun.
  - injection Hrun as <-. exists []. now rewrite app_nil_r.
  - simpl cache_msrs in Hrun.
    pose proof (msr_read_log (before s) cpu id (cs_msr_val st)) as Hlog.
    destruct (msr_read (before s) cpu id (cs_msr_val st)) as [[log ret] v].
    simpl in Hlog.
    destruct (ret =? 0);
      [destruct (store (cs_msrs st) msr_idx _); [| discriminate] |];
      apply IH in Hrun as (l & Hl & Hio); simpl in Hl;
      exists (log ++ l); rewrite Hl, <- app_assoc;
      (split; [reflexivity | apply Forall_app; split; assumption]).
Qed.

Lemma cache_cpus_log n :
  forall cpu st st',
    cache_cpus n cpu st = Some st' ->
    exists l, cs_log st' = cs_log st ++ l /\
              Forall (msr_io (fun c => cpu <= c < cpu + Z.of_nat n /\
                                       CPU_ISSET s c = true)) l.
Proof.
  induction n as [| n IH]; intros cpu st st' Hrun.
  - injection Hrun as <-. exists []. now rewrite app_nil_r.
  - rewrite cache_cpus_S in Hrun. rewrite Nat2Z.inj_succ.
    destruct (CPU_ISSET s cpu) eqn:Eset; simpl negb in Hrun;
      cbv iota in Hrun.
    + destruct (int_mul cpu num_msrs) as [msr_idx |]; [| discriminate].
      destruct (cache_msrs cpu main_msr_id msr_idx st) as [st1 |] eqn:E1;
        [| discriminate].
      apply cache_msrs_log in E1 as (l1 & Hl1 & Hio1).
      apply IH in Hrun as (l & Hl & Hio).
      exists (l1 ++ l). rewrite Hl, Hl1, <- app_assoc.
      split; [reflexivity |]. apply Forall_app; split.
      * eapply msr_io_impl; [| exact Hio1].
        intros c ->. split; [lia | exact Eset].
      * eapply msr_io_impl; [| exact Hio]. simpl. intros c [Hc ?].
        split; [lia | assumption].
    + apply IH in Hrun as (l & Hl & Hio).
      exists l. split; [exact Hl |].
      eapply msr_io_impl; [| exact Hio]. simpl. intros c [Hc ?].
      split; [lia | assumption].
Qed.

Lemma check_msrs_log msrs cpu ids :
  forall msr_idx st st',
    check_msrs msrs cpu ids msr_idx st = Some st' ->
    exists l, ck_log st' = ck_log st ++ l /\
              Forall (check_io (fun c => c = cpu)) l.
Proof.
  induction ids as [| id ids IH]; intros msr_idx st st' Hrun.
  - injection Hrun as <-. exists []. now rewrite app_nil_r.
  - simpl check_msrs in Hrun.
    destruct (load msrs msr_idx) as [e |]; [| discriminate].
    destruct (negb (valid e)).
    + now apply IH in Hrun.
    + pose proof (msr_read_log (after s) cpu id (ck_msr_val st)) as Hlog.
      destruct (msr_read (after s) cpu id (ck_msr_val st)) as [[log ret] v].
      simpl in Hlog. apply msr_io_check_io in Hlog.
      destruct (negb (ret =? 0));
        [| destruct (negb (msr_val e =? v))];
        apply IH in Hrun as (l & Hl & Hio); simpl in Hl;
        rewrite <- !app_assoc in Hl;
        eexists; (split; [exact Hl |]);
        repeat (apply Forall_app; split); auto; repeat constructor.
Qed.

Lemma check_cpus_log msrs n :
  forall cpu st st',
    check_cpus msrs n cpu st = Some st' ->
    exists l, ck_log st' = ck_log st ++ l /\
              Forall (check_io (fun c => cpu <= c < cpu + Z.of_nat n /\
                                         CPU_ISSET s c = true)) l.
Proof.
  induction n as [| n IH]; intros cpu st st' Hrun.
  - injection Hrun as <-. exists []. now rewrite app_nil_r.
  - rewrite check_cpus_S in Hrun. rewrite Nat2Z.inj_succ.
    destruct (CPU_ISSET s cpu) eqn:Eset; simpl negb in Hrun;
      cbv iota in Hrun.
    + destruct (int_mul cpu num_msrs) as [msr_idx |]; [| discriminate].
      destruct (check_msrs msrs cpu main_msr_id msr_idx st) as [st1 |] eqn:E1;
        [| discriminate].
      apply check_msrs_log in E1 as (l1 & Hl1 & Hio1).
      apply IH in Hrun as (l & Hl & Hio).
      exists (l1 ++ l). rewrite Hl, Hl1, <- app_assoc.
      split; [reflexivity |]. apply Forall_app; split.
      * eapply check_io_impl; [| exact Hio1].
        intros c ->. split; [lia | exact Eset].
      * eapply check_io_impl; [| exact Hio]. simpl. intros c [Hc ?].
        split; [lia | assumption].
    + apply IH in Hrun as (l & Hl & Hio).
      exists l. split; [exact Hl |].
      eapply check_io_impl; [| exact Hio]. simpl. intros c [Hc ?].
      split; [lia | assumption].
Qed.

(** X17: [main] opens the MSR file of a CPU only if the CPU is below the
    configured count and in the affinity mask of the process. *)
Theorem main_reads_available_cpus_only log e c r :
  main = Some (log, e) ->
  In (ev_open (dev_cpu_msr c) r) log ->
  0 <= c < get_nprocs_conf s /\ CPU_ISSET s c = true.
Proof.
  intros Hmain Hin.
  destruct (main_guards _ _ Hmain)
    as [[-> _] | (Huid & Haff & Hcal & Hint)].
  - destruct Hin as [Hin | []]. discriminate.
  - assert (Hcpu : forall c0,
               0 <= c0 < 0 + Z.of_nat (Z.to_nat (get_nprocs_conf s)) /\
               CPU_ISSET s c0 = true -> on_cpu c0)
      by (intros c0 [Hc Hset]; split; [lia | exact Hset]).
    destruct (suspend_log (power_state s)) as (_ & _ & Hsus).
    unfold main in Hmain. rewrite Huid, Hcal in Hmain.
    simpl negb in Hmain. cbv iota in Hmain.
    destruct (Z.ltb_spec (sched_getaffinity s) 0); [lia |].
    rewrite (int_mul_in_range _ _ Hint) in Hmain.
    match type of Hmain with
    | context [cache_cpus ?n 0 ?st0] =>
        destruct (cache_cpus n 0 st0) as [st |] eqn:Ec; [| discriminate]
    end.
    apply cache_cpus_log in Ec as (l1 & Hl1 & Hio1). simpl in Hl1.
    apply (msr_io_impl _ _ _ Hcpu) in Hio1.
    assert (H1 : In (ev_open (dev_cpu_msr c) r) l1 -> on_cpu c).
    { intros Hl. apply (proj1 (Forall_forall _ _) Hio1) in Hl. exact Hl. }
    destruct (suspend (power_state s)) as [slog sret]. simpl in Hsus.
    cbv beta iota in Hmain.
    destruct (negb (sret =? 0)).
    + unfold cleanup in Hmain. injection Hmain as <- _.
      rewrite Hl1 in Hin.
      split_log Hin; first [exact (H1 Hin) | now apply Hsus in Hin].
    + match type of Hmain with
      | context [check_cpus ?m ?n 0 ?ck0] =>
          destruct (check_cpus m n 0 ck0) as [ck |] eqn:Ek; [| discriminate]
      end.
      apply check_cpus_log in Ek as (l2 & Hl2 & Hio2). simpl in Hl2.
      apply (check_io_impl _ _ _ Hcpu) in Hio2.
      assert (H2 : In (ev_open (dev_cpu_msr c) r) l2 -> on_cpu c).
      { intros Hl. apply (proj1 (Forall_forall _ _) Hio2) in Hl. exact Hl. }
      unfold cleanup in Hmain. injection Hmain as <- _.
      rewrite Hl2, Hl1 in Hin.
      split_log Hin;
        first [exact (H1 Hin) | exact (H2 Hin) | now apply Hsus in Hin].
Qed.

(** X18: in a run of [main] that ends, the power-state file is opened, and
    so a suspend attempted, only as root with the affinity mask and the
    memory obtained; a run stopped by one of these three checks does
    nothing but print the header, and ends in [ksft_exit_fail_msg] with
    the message of the check that stopped it. *)
Theorem main_suspends_after_checks log e :
  main = Some (log, e) ->
  (forall r, In (ev_open sys_power_state r) log ->
             getuid s = 0 /\ 0 <= sched_getaffinity s /\
             calloc_ok s = true) /\
  (getuid s <> 0 ->
   log = [ksft_print_header] /\ e = ksft_exit_fail_msg rerun_as_root) /\
  (getuid s = 0 -> sched_getaffinity s < 0 ->
   log = [ksft_print_header] /\
   e = ksft_exit_fail_msg sched_getaffinity_failed) /\
  (getuid s = 0 -> 0 <= sched_getaffinity s -> calloc_ok s = false ->
   log = [ksft_print_header] /\
   e = ksft_exit_fail_msg memory_allocation_failed).
Proof.
  intros Hmain.
  destruct (main_guards _ _ Hmain)
    as [[-> [(Huid & ->) | [(Huid & Haff & ->) | (Huid & Haff & Hcal & ->)]]]
       | (Huid & Haff & Hcal & _)];
    (split; [intros r Hin; try (destruct Hin as [Hin | []]; discriminate);
             auto |]);
    repeat split; intros; try reflexivity; try contradiction; try lia;
    congruence.
Qed.

End Host.

(** ** A run on a machine with three CPUs

    CPU 1 is outside the affinity mask; [MSR_AMD64_LS_CFG] has no file to
    open and [MSR_IA32_TSX_CTRL] cannot be read; the suspend succeeds and
    every MSR reads after it as before. *)

Definition demo_dev : msr_dev :=
  {| dev_open := fun cpu id => if id =? MSR_AMD64_LS_CFG then -1 else 5;
     dev_pread := fun cpu id =>
       if id =? MSR_IA32_TSX_CTRL
       then {| pr_ret := -1; pr_data := 0; pr_short := fun b => b |}
       else {| pr_ret := 8; pr_data := 256 * cpu + id;
               pr_short := fun b => b |} |}.

Definition demo_power : power :=
  {| open_state_ret := 3; timerfd_create_ret := 4;
     timerfd_settime_ret := 0; write_ret := 3 |}.

Definition demo_host : host :=
  {| getuid := 0; sched_getaffinity := 0;
     CPU_ISSET := fun c => negb (c =? 1);
     get_nprocs_conf := 3; calloc_ok := true; msr_val_uninit := 0;
     before := demo_dev; power_state := demo_power; after := demo_dev |}.

Example demo_run :
  exists log,
    main 19 (2 ^ 64 - 1) demo_host = Some (log, ksft_exit_pass) /\
    plans log = [8] /\ results log = 8.
Proof. eexists. split; [vm_compute; reflexivity | split; reflexivity]. Qed.

(** A count of [2^32 + 8] is narrowed to the [int] 8: [msr_read] reports
    success. *)
Example msr_read_narrows_count :
  let d := {| dev_open := fun _ _ => 5;
              dev_pread := fun _ _ =>
                {| pr_ret := 2 ^ 32 + 8; pr_data := 0;
                   pr_short := fun b => b |} |} in
  snd (fst (msr_read 19 d 0 MSR_IA32_SPEC_CTRL 0)) = 0.
Proof. reflexivity. Qed.

(** The log of the run on [demo_host]. *)
Definition demo_log : list event :=
  match main 19 (2 ^ 64 - 1) demo_host with
  | Some (log, _) => log
  | None => []
  end.

Ltac demo_fits :=
  intros cpu id; unfold demo_host, demo_dev; simpl;
  destruct (id =? MSR_IA32_TSX_CTRL); simpl; unfold INT_MIN, INT_MAX; lia.

Ltac demo_checks :=
  first [ lia | unfold INT_MAX; lia | reflexivity | demo_fits
        | vm_compute; split; discriminate ].


Lemma msr_read_result_witness :
  (snd (fst (msr_read 19 demo_dev 0 MSR_IA32_SPEC_CTRL 0)) = 0 <->
   dev_open demo_dev 0 MSR_IA32_SPEC_CTRL <> -1 /\
   to_int (pr_ret (dev_pread demo_dev 0 MSR_IA32_SPEC_CTRL)) = 8) /\
  (INT_MIN <= pr_ret (dev_pread demo_dev 0 MSR_IA32_SPEC_CTRL) <= INT_MAX ->
   (snd (fst (msr_read 19 demo_dev 0 MSR_IA32_SPEC_CTRL 0)) = 0 <->
    dev_open demo_dev 0 MSR_IA32_SPEC_CTRL <> -1 /\
    pr_ret (dev_pread demo_dev 0 MSR_IA32_SPEC_CTRL) = 8)) /\
  (dev_open demo_dev 0 MSR_IA32_SPEC_CTRL <> -1 ->
   pr_ret (dev_pread demo_dev 0 MSR_IA32_SPEC_CTRL) = 8 ->
   snd (fst (msr_read 19 demo_dev 0 MSR_IA32_SPEC_CTRL 0)) = 0 /\
   snd (msr_read 19 demo_dev 0 MSR_IA32_SPEC_CTRL 0) =
   pr_data (dev_pread demo_dev 0 MSR_IA32_SPEC_CTRL)) /\
  (dev_open demo_dev 0 MSR_IA32_SPEC_CTRL = -1 ->
   snd (fst (msr_read 19 demo_dev 0 MSR_IA32_SPEC_CTRL 0)) = - 19 /\
   snd (msr_read 19 demo_dev 0 MSR_IA32_SPEC_CTRL 0) = 0) /\
  (dev_open demo_dev 0 MSR_IA32_SPEC_CTRL <> -1 ->
   to_int (pr_ret (dev_pread demo_dev 0 MSR_IA32_SPEC_CTRL)) <> 8 ->
   snd (fst (msr_read 19 demo_dev 0 MSR_IA32_SPEC_CTRL 0)) = 1).
Proof. apply (msr_read_result 19); lia. Defined.

Lemma msr_read_closes_what_it_opened_witness :
  fd_discipline []
    (fst (fst (msr_read 19 demo_dev 0 MSR_IA32_SPEC_CTRL 0))) = true /\
  closed (fst (fst (msr_read 19 demo_dev 0 MSR_IA32_SPEC_CTRL 0))) =
  opened (fst (fst (msr_read 19 demo_dev 0 MSR_IA32_SPEC_CTRL 0))) /\
  (dev_open demo_dev 0 MSR_IA32_SPEC_CTRL = -1 ->
   forall e,
     In e (fst (fst (msr_read 19 demo_dev 0 MSR_IA32_SPEC_CTRL 0))) ->
     match e with
     | ev_pread _ _ _ | ev_close _ => False
     | _ => True
     end).
Proof.
  apply (msr_read_closes_what_it_opened 19 demo_dev 0 MSR_IA32_SPEC_CTRL 0).
  simpl. lia.
Defined.

Lemma main_verdict_witness :
  exists log e,
    main 19 (2 ^ 64 - 1) demo_host = Some (log, e) /\
    (e = ksft_exit_pass \/ e = ksft_exit_fail) /\
    (e = ksft_exit_pass <->
     snd (suspend (power_state demo_host)) = 0 /\
     forall cpu id,
       0 <= cpu < get_nprocs_conf demo_host ->
       CPU_ISSET demo_host cpu = true ->
       In id main_msr_id ->
       readable (before demo_host) cpu id = true ->
       readable (after demo_host) cpu id = true /\
       msr_value (after demo_host) cpu id =
       msr_value (before demo_host) cpu id).
Proof. apply (main_verdict 19); demo_checks. Defined.

Lemma main_reports_its_plan_witness :
  exists log e,
    main 19 (2 ^ 64 - 1) demo_host = Some (log, e) /\
    plans log = [results log] /\
    results log = planned demo_host (Z.to_nat (get_nprocs_conf demo_host)) 0 /\
    (forall cpu id,
        results_for cpu id log =
        if (0 <=? cpu) && (cpu <? get_nprocs_conf demo_host)
           && CPU_ISSET demo_host cpu
           && existsb (Z.eqb id) main_msr_id
           && readable (before demo_host) cpu id
        then 1 else 0).
Proof. apply (main_reports_its_plan 19); demo_checks. Defined.

Lemma main_reads_available_cpus_only_witness :
  0 <= 2 < get_nprocs_conf demo_host /\ CPU_ISSET demo_host 2 = true.
Proof.
  eapply (main_reads_available_cpus_only 19 (2 ^ 64 - 1) demo_host _ _ 2 5).
  - vm_compute. reflexivity.
  - vm_compute. repeat (first [left; reflexivity | right]).
Defined.

Lemma main_suspends_after_checks_witness :
  (forall r, In (ev_open sys_power_state r) demo_log ->
             getuid demo_host = 0 /\ 0 <= sched_getaffinity demo_host /\
             calloc_ok demo_host = true) /\
  (getuid demo_host <> 0 ->
   demo_log = [ksft_print_header] /\
   ksft_exit_pass = ksft_exit_fail_msg rerun_as_root) /\
  (getuid demo_host = 0 -> sched_getaffinity demo_host < 0 ->
   demo_log = [ksft_print_header] /\
   ksft_exit_pass = ksft_exit_fail_msg sched_getaffinity_failed) /\
  (getuid demo_host = 0 -> 0 <= sched_getaffinity demo_host ->
   calloc_ok demo_host = false ->
   demo_log = [ksft_print_header] /\
   ksft_exit_pass = ksft_exit_fail_msg memory_allocation_failed).
Proof.
  apply (main_suspends_after_checks 19 (2 ^ 64 - 1) demo_host
           demo_log ksft_exit_pass).
  vm_compute. reflexivity.
Defined.

End MsrRestore.
